(** * Verification of the transcript / metadata cache

    Shallow embedding of [app/utils/transcript_cache.py]: the bounded-LRU
    [MemoryCacheBackend], the [TranscriptCache] facade that sits in front of
    it, and the cache-key derivation.

    Modelling conventions.
    - An [OrderedDict] is an association list whose head is the oldest
      (least recently used) binding and whose last element is the newest one.
      Python keeps the keys of a dictionary unique; that invariant is the
      predicate [wf] and every operation is shown to preserve it.
    - [time.time()] is an input: every operation that reads the clock takes
      the reading as an argument.  Instants and durations are integers (ticks
      of the clock); the rounding of floating-point addition is not modelled.
    - A Python exception that escapes a function is the [Raise] constructor of
      [result].
    - The redis client library is external to the repository: the remote
      backend is a parameter (a state type and total operations, since every
      method of [RedisCacheBackend] catches [Exception]). *)

From Stdlib Require Import List String Ascii ZArith Lia Bool Permutation.
From Stdlib Require Import DecimalString.
Import ListNotations.

Local Open Scope string_scope.
Local Open Scope list_scope.
Local Open Scope Z_scope.

Set Implicit Arguments.

(** ** Exceptions and fallible results *)

Inductive exn : Type :=
| KeyError (msg : string)
| ConnectionError (msg : string).

Inductive result (A : Type) : Type :=
| Ok (a : A)
| Raise (e : exn).

Arguments Ok {A} a.
Arguments Raise {A} e.

Definition bind {A B : Type} (r : result A) (k : A -> result B) : result B :=
  match r with
  | Ok a => k a
  | Raise e => Raise e
  end.

Notation "x <- r ;; k" := (bind r (fun x => k))
  (at level 61, r at next level, right associativity).

(** ** The ordered dictionary underneath the LRU backend *)

Module OrderedDict.
Section Dict.
Context {V : Type}.

Definition t := list (string * V).

(** [d[key]], with [None] standing for [key not in d]. *)
Fixpoint lookup (d : t) (key : string) : option V :=
  match d with
  | [] => None
  | (k, v) :: r => if (k =? key)%string then Some v else lookup r key
  end.

(** [key in d] *)
Definition contains (d : t) (key : string) : bool :=
  match lookup d key with
  | Some _ => true
  | None => false
  end.

(** [del d[key]] for a key that is present. *)
Definition del (d : t) (key : string) : t :=
  filter (fun kv => negb (fst kv =? key)%string) d.

(** [d[key] = v]: an existing binding is overwritten where it stands, a new
    one goes to the end. *)
Fixpoint setitem (d : t) (key : string) (v : V) : t :=
  match d with
  | [] => [(key, v)]
  | (k, x) :: r =>
      if (k =? key)%string then (k, v) :: r else (k, x) :: setitem r key v
  end.

(** [d.move_to_end(key)] *)
Definition move_to_end (d : t) (key : string) : result t :=
  match lookup d key with
  | Some v => Ok (del d key ++ [(key, v)])
  | None => Raise (KeyError key)
  end.

(** [d.popitem(last=False)] *)
Definition popitem_first (d : t) : result ((string * V) * t) :=
  match d with
  | [] => Raise (KeyError "dictionary is empty")
  | kv :: r => Ok (kv, r)
  end.

Definition keys (d : t) : list string := map fst d.

(** Keys of a dictionary are pairwise distinct. *)
Definition wf (d : t) : Prop := NoDup (keys d).

End Dict.
Arguments t V : clear implicits.
End OrderedDict.

(** ** [class MemoryCacheBackend] *)

Module MemoryCacheBackend.
Section Backend.
Context {Value : Type}.

(** A stored entry: the value and its absolute expiry instant. *)
Definition entry : Type := (Value * Z)%type.

Record t : Type := mk {
  _cache : OrderedDict.t entry;
  max_size : Z
}.

Definition init (max_size : Z) : t := {| _cache := []; max_size := max_size |}.

(** [now] is the reading of [time.time()], made only when the key is bound.
    [move_to_end] cannot raise here, the key being bound; its [Raise] branch
    is never taken (lemma [get_hit]). *)
Definition get (self : t) (key : string) (now : Z) : option Value * t :=
  match OrderedDict.lookup (_cache self) key with
  | None => (None, self)
  | Some (value, expiry) =>
      if now >? expiry then
        (None, {| _cache := OrderedDict.del (_cache self) key;
                  max_size := max_size self |})
      else
        match OrderedDict.move_to_end (_cache self) key with
        | Ok d => (Some value, {| _cache := d; max_size := max_size self |})
        | Raise _ => (Some value, self)
        end
  end.

(** The loop [while len(self._cache) >= self.max_size: popitem(last=False)].
    Every round drops one binding, so the recursion is on the dictionary; the
    inner [match] is [OrderedDict.popitem_first] written out (lemma
    [evict_unfold]). *)
Fixpoint evict (max_size : Z) (d : OrderedDict.t entry)
  : result (OrderedDict.t entry) :=
  if Z.of_nat (List.length d) >=? max_size then
    match d with
    | [] => Raise (KeyError "dictionary is empty")
    | _ :: r => evict max_size r
    end
  else Ok d.

Definition set (self : t) (key : string) (value : Value) (ttl_seconds : Z)
    (now : Z) : result t :=
  let d0 := if OrderedDict.contains (_cache self) key
            then OrderedDict.del (_cache self) key
            else _cache self in
  d1 <- evict (max_size self) d0 ;;
  let expiry := now + ttl_seconds in
  Ok {| _cache := OrderedDict.setitem d1 key (value, expiry);
        max_size := max_size self |}.

Definition delete (self : t) (key : string) : t :=
  if OrderedDict.contains (_cache self) key
  then {| _cache := OrderedDict.del (_cache self) key;
          max_size := max_size self |}
  else self.

Definition clear (self : t) : t :=
  {| _cache := []; max_size := max_size self |}.

Definition size (self : t) : Z := Z.of_nat (List.length (_cache self)).

(** Number of bindings the eviction loop pops from a dictionary of length
    [n] under capacity [ms]. *)
Definition evicted (ms : Z) (n : nat) : nat := Z.to_nat (Z.of_nat n + 1 - ms).

(** State invariant of a backend: distinct keys, and no more bindings than
    the capacity. *)
Definition bounded (self : t) : Prop :=
  OrderedDict.wf (_cache self) /\ size self <= max_size self.

(** Operations of a client, for sequences of calls. *)
Inductive op : Type :=
| OpGet (key : string) (now : Z)
| OpSet (key : string) (value : Value) (ttl_seconds : Z) (now : Z)
| OpDelete (key : string)
| OpClear.

Definition step (self : t) (o : op) : result t :=
  match o with
  | OpGet key now => Ok (snd (get self key now))
  | OpSet key value ttl now => set self key value ttl now
  | OpDelete key => Ok (delete self key)
  | OpClear => Ok (clear self)
  end.

Fixpoint run (self : t) (ops : list op) : result t :=
  match ops with
  | [] => Ok self
  | o :: rest => self' <- step self o ;; run self' rest
  end.

End Backend.
Arguments t Value : clear implicits.
Arguments op Value : clear implicits.
End MemoryCacheBackend.

(** ** Python's [sorted] on strings and [",".join] *)

(** [sorted] compares strings lexicographically by code point; on the UTF-8
    bytes of a [string] that is [String.leb].  The order is total and
    antisymmetric, so the sorted list does not depend on the algorithm; the
    model is a stable insertion sort. *)
Fixpoint insert_sorted (x : string) (l : list string) : list string :=
  match l with
  | [] => [x]
  | y :: r => if String.leb x y then x :: y :: r else y :: insert_sorted x r
  end.

Fixpoint sorted (l : list string) : list string :=
  match l with
  | [] => []
  | x :: r => insert_sorted x (sorted r)
  end.

(** [sep.join(l)] *)
Definition join (sep : string) (l : list string) : string := String.concat sep l.

(** ** Configuration ([app/core/config.py], the cache options) *)

Record Settings : Type := {
  CACHE_ENABLED : bool;
  CACHE_TTL_SECONDS : Z;
  CACHE_MAX_SIZE : Z;
  CACHE_BACKEND : string;
  REDIS_URL : string
}.

(** ** [class TranscriptCache] *)

Module TranscriptCache.
Section Facade.
(** Numbers held by a transcript snippet and the metadata dictionary are
    carried around and never inspected. *)
Context {Float Metadata : Type}.

(** [class Transcript(TypedDict)] *)
Record Transcript : Type := {
  text : string;
  start : Float;
  duration : Float
}.

(** An element of the list given to [set]: an object with the attributes
    [text], [start], [duration], or a mapping with those keys. *)
Inductive snippet : Type :=
| SnippetObject (text : string) (start duration : Float)
| SnippetDict (d : Transcript).

(** What the backends store. *)
Inductive cached : Type :=
| CachedTranscript (l : list Transcript)
| CachedMetadata (m : Metadata).

(** The remote backend.  [RedisCacheBackend.__init__] raises when the store
    cannot be reached; every other method catches [Exception] and so is a
    total function of the backend's state. *)
Context {Redis : Type}.
Variable redis_init : string -> result Redis.
Variable redis_get : Redis -> string -> option cached * Redis.
Variable redis_set : Redis -> string -> cached -> Z -> Redis.
Variable redis_clear : Redis -> Redis.
Variable redis_size : Redis -> Z * Redis.

Inductive backend : Type :=
| Memory (m : MemoryCacheBackend.t cached)
| Remote (r : Redis).

(** Calls of a method of [self._backend], in the order they are made. *)
Inductive backend_call : Type :=
| CallGet (key : string)
| CallSet (key : string)
| CallClear
| CallSize.

(** The facade object.  [trace] is a ghost field: it records every method
    call the facade makes on its backend and is read by no operation. *)
Record t : Type := mk {
  enabled : bool;
  ttl_seconds : Z;
  max_size : Z;
  backend_type : string;
  _backend : option backend;
  trace : list backend_call
}.

Definition with_backend (self : t) (b : backend) (c : backend_call) : t :=
  {| enabled := enabled self;
     ttl_seconds := ttl_seconds self;
     max_size := max_size self;
     backend_type := backend_type self;
     _backend := Some b;
     trace := trace self ++ [c] |}.

(** [TranscriptCache.__init__] *)
Definition init (settings : Settings) : t :=
  let enabled := CACHE_ENABLED settings in
  let max_size := CACHE_MAX_SIZE settings in
  let backend_type := CACHE_BACKEND settings in
  let '(b, backend_type) :=
    if negb enabled then (None, backend_type)
    else if (backend_type =? "redis")%string then
      match redis_init (REDIS_URL settings) with
      | Ok r => (Some (Remote r), backend_type)
      | Raise _ => (Some (Memory (MemoryCacheBackend.init max_size)), "memory")
      end
    else (Some (Memory (MemoryCacheBackend.init max_size)), backend_type) in
  {| enabled := enabled;
     ttl_seconds := CACHE_TTL_SECONDS settings;
     max_size := max_size;
     backend_type := backend_type;
     _backend := b;
     trace := [] |}.

Definition _make_transcript_key (video_id : string)
    (languages : option (list string)) : string :=
  let lang_str :=
    match languages with
    | Some ((_ :: _) as l) => join "," (sorted l)
    | _ => "en"
    end in
  "transcript:" ++ video_id ++ ":" ++ lang_str.

Definition _make_metadata_key (video_id : string) : string :=
  "metadata:" ++ video_id.

(** Dynamic dispatch of [self._backend.get] and [self._backend.set]. *)
Definition backend_get (b : backend) (key : string) (now : Z)
  : option cached * backend :=
  match b with
  | Memory m => let '(v, m') := MemoryCacheBackend.get m key now in (v, Memory m')
  | Remote r => let '(v, r') := redis_get r key in (v, Remote r')
  end.

Definition backend_set (b : backend) (key : string) (value : cached)
    (ttl : Z) (now : Z) : result backend :=
  match b with
  | Memory m => m' <- MemoryCacheBackend.set m key value ttl now ;; Ok (Memory m')
  | Remote r => Ok (Remote (redis_set r key value ttl))
  end.

Definition get (self : t) (video_id : string)
    (languages : option (list string)) (now : Z) : option cached * t :=
  match enabled self, _backend self with
  | true, Some b =>
      let key := _make_transcript_key video_id languages in
      let '(v, b') := backend_get b key now in
      (v, with_backend self b' (CallGet key))
  | _, _ => (None, self)
  end.

Definition to_dict (s : snippet) : Transcript :=
  match s with
  | SnippetObject tx st du => {| text := tx; start := st; duration := du |}
  | SnippetDict d => d
  end.

Definition set (self : t) (video_id : string) (transcript : list snippet)
    (languages : option (list string)) (now : Z) : result t :=
  match enabled self, _backend self with
  | true, Some b =>
      let key := _make_transcript_key video_id languages in
      let transcript_data := map to_dict transcript in
      b' <- backend_set b key (CachedTranscript transcript_data)
              (ttl_seconds self) now ;;
      Ok (with_backend self b' (CallSet key))
  | _, _ => Ok self
  end.

Definition get_metadata (self : t) (video_id : string) (now : Z)
  : option cached * t :=
  match enabled self, _backend self with
  | true, Some b =>
      let key := _make_metadata_key video_id in
      let '(v, b') := backend_get b key now in
      (v, with_backend self b' (CallGet key))
  | _, _ => (None, self)
  end.

Definition set_metadata (self : t) (video_id : string) (metadata : Metadata)
    (now : Z) : result t :=
  match enabled self, _backend self with
  | true, Some b =>
      let key := _make_metadata_key video_id in
      b' <- backend_set b key (CachedMetadata metadata) (ttl_seconds self) now ;;
      Ok (with_backend self b' (CallSet key))
  | _, _ => Ok self
  end.

Definition clear (self : t) : t :=
  match _backend self with
  | Some (Memory m) => with_backend self (Memory (MemoryCacheBackend.clear m)) CallClear
  | Some (Remote r) => with_backend self (Remote (redis_clear r)) CallClear
  | None => self
  end.

Definition size (self : t) : Z * t :=
  match _backend self with
  | None => (0, self)
  | Some (Memory m) => (MemoryCacheBackend.size m, with_backend self (Memory m) CallSize)
  | Some (Remote r) =>
      let '(n, r') := redis_size r in (n, with_backend self (Remote r') CallSize)
  end.

(** The scan of [cleanup_expired].  [keys] is the snapshot
    [list(self._backend._cache.keys())]; [clock i] is the reading of the
    [i]-th call of [time.time()] made by the scan. *)
Fixpoint cleanup_scan (keys : list string) (clock : nat -> Z) (i : nat)
    (d : OrderedDict.t (MemoryCacheBackend.entry (Value := cached)))
    (expired_count : Z)
  : Z * OrderedDict.t (MemoryCacheBackend.entry (Value := cached)) :=
  match keys with
  | [] => (expired_count, d)
  | key :: rest =>
      match OrderedDict.lookup d key with
      | Some (_, expiry) =>
          if clock i >? expiry
          then cleanup_scan rest clock (S i) (OrderedDict.del d key)
                 (expired_count + 1)
          else cleanup_scan rest clock (S i) d expired_count
      | None => cleanup_scan rest clock i d expired_count
      end
  end.

(** The facade with the dictionary of its memory backend replaced; no method
    of the backend is called. *)
Definition with_memory_cache (self : t) (m : MemoryCacheBackend.t cached)
    (d : OrderedDict.t (MemoryCacheBackend.entry (Value := cached))) : t :=
  {| enabled := enabled self;
     ttl_seconds := ttl_seconds self;
     max_size := max_size self;
     backend_type := backend_type self;
     _backend := Some (Memory {| MemoryCacheBackend._cache := d;
                                 MemoryCacheBackend.max_size :=
                                   MemoryCacheBackend.max_size m |});
     trace := trace self |}.

Definition cleanup_expired (self : t) (clock : nat -> Z) : Z * t :=
  match enabled self, _backend self with
  | true, Some (Memory m) =>
      let keys_to_check := OrderedDict.keys (MemoryCacheBackend._cache m) in
      let '(expired_count, d) :=
        cleanup_scan keys_to_check clock 0 (MemoryCacheBackend._cache m) 0 in
      (expired_count, with_memory_cache self m d)
  | _, _ => (0, self)
  end.

(** Vocabulary for the scan: each binding of [d] paired with the clock reading
    at which the scan examines it (the scan reads the clock once per binding,
    starting with reading [i]), and the test the scan applies to such a pair. *)
Definition checked_from (clock : nat -> Z) (i : nat)
    (d : OrderedDict.t (MemoryCacheBackend.entry (Value := cached)))
  : list ((string * MemoryCacheBackend.entry (Value := cached)) * Z) :=
  combine d (map clock (seq i (List.length d))).

Definition expired_when_checked
    (p : (string * MemoryCacheBackend.entry (Value := cached)) * Z) : bool :=
  snd p >? snd (snd (fst p)).

(** A binding whose expiry instant has passed at [now]. *)
Definition expired_at (now : Z)
    (kv : string * MemoryCacheBackend.entry (Value := cached)) : bool :=
  now >? snd (snd kv).

(** Calls of a client of the transcript operations. *)
Inductive op : Type :=
| OpGet (video_id : string) (languages : option (list string)) (now : Z)
| OpSet (video_id : string) (transcript : list snippet)
    (languages : option (list string)) (now : Z)
| OpGetMetadata (video_id : string) (now : Z)
| OpSetMetadata (video_id : string) (metadata : Metadata) (now : Z).

(** One call: the value a get returns (a set returns nothing) and the
    facade afterwards. *)
Definition step (self : t) (o : op) : result (option cached * t) :=
  match o with
  | OpGet v l now => Ok (get self v l now)
  | OpSet v tr l now => self' <- set self v tr l now ;; Ok (None, self')
  | OpGetMetadata v now => Ok (get_metadata self v now)
  | OpSetMetadata v m now => self' <- set_metadata self v m now ;; Ok (None, self')
  end.

(** A sequence of calls: everything the gets returned, and the facade
    afterwards. *)
Fixpoint run (self : t) (ops : list op) : result (list (option cached) * t) :=
  match ops with
  | [] => Ok ([], self)
  | o :: rest =>
      r <- step self o ;;
      r' <- run (snd r) rest ;;
      Ok (match o with
          | OpGet _ _ _ | OpGetMetadata _ _ => fst r :: fst r'
          | _ => fst r'
          end, snd r')
  end.

End Facade.
End TranscriptCache.

(** ** The remote store when it cannot be reached

    The behaviour [RedisCacheBackend] has with no store to talk to:
    construction raises, and every other method logs and degrades to a miss
    or a no-op.  It instantiates the parameters of the facade in the
    examples. *)

Module UnreachableRedis.

Definition init (redis_url : string) : result unit :=
  Raise (ConnectionError redis_url).

Definition get {V : Type} (r : unit) (key : string) : option V * unit := (None, r).

Definition set {V : Type} (r : unit) (key : string) (value : V) (ttl_seconds : Z)
  : unit := r.

Definition clear (r : unit) : unit := r.

Definition size (r : unit) : Z * unit := (0, r).

End UnreachableRedis.

(** ** Sample configurations and data *)

Module Sample.

Definition disabled : Settings :=
  {| CACHE_ENABLED := false; CACHE_TTL_SECONDS := 3600; CACHE_MAX_SIZE := 1000;
     CACHE_BACKEND := "memory"; REDIS_URL := "redis://localhost:6379" |}.

Definition memory (capacity : Z) : Settings :=
  {| CACHE_ENABLED := true; CACHE_TTL_SECONDS := 3600; CACHE_MAX_SIZE := capacity;
     CACHE_BACKEND := "memory"; REDIS_URL := "redis://localhost:6379" |}.


(** Snippet times in milliseconds, metadata as a list of fields. *)
Definition Facade : Type :=
  TranscriptCache.t (Float := Z) (Metadata := list (string * string)) (Redis := unit).

Definition new (settings : Settings) : Facade :=
  TranscriptCache.init UnreachableRedis.init settings.

Definition hi : list (TranscriptCache.snippet (Float := Z)) :=
  [TranscriptCache.SnippetDict
     {| TranscriptCache.text := "hi"; TranscriptCache.start := 0;
        TranscriptCache.duration := 1000 |}].

(** A backend of capacity 3 holding two bindings, the older one expiring at
    instant 50 and the newer one at instant 200. *)
Definition two_entries : MemoryCacheBackend.t string :=
  {| MemoryCacheBackend._cache := [("old", ("v1", 50)); ("new", ("v2", 200))];
     MemoryCacheBackend.max_size := 3 |}.

Definition two_cached
  : MemoryCacheBackend.t
      (TranscriptCache.cached (Float := Z) (Metadata := list (string * string))) :=
  {| MemoryCacheBackend._cache :=
       [("metadata:old", (TranscriptCache.CachedMetadata [("title", "a")], 50));
        ("metadata:new", (TranscriptCache.CachedMetadata [("title", "b")], 200))];
     MemoryCacheBackend.max_size := 3 |}.

Definition with_two_cached : Facade :=
  {| TranscriptCache.enabled := true;
     TranscriptCache.ttl_seconds := 3600;
     TranscriptCache.max_size := 3;
     TranscriptCache.backend_type := "memory";
     TranscriptCache._backend := Some (TranscriptCache.Memory two_cached);
     TranscriptCache.trace := [] |}.

End Sample.

(** ** What a sequence of backend calls last wrote for a key

    [last_write w key ops] follows the calls [ops] and keeps, for the one key
    [key], the value and expiry of the most recent [set] that no later
    [delete] or [clear] has undone, starting from [w].  Evictions and expiry
    are deliberately not part of it: it is the yardstick the backend's
    answers are measured against. *)

Module History.
Section History.
Context {Value : Type}.

Definition write (w : option (Value * Z)) (key : string)
    (o : MemoryCacheBackend.op Value) : option (Value * Z) :=
  match o with
  | MemoryCacheBackend.OpGet _ _ => w
  | MemoryCacheBackend.OpSet k value ttl_seconds now =>
      if (k =? key)%string then Some (value, now + ttl_seconds) else w
  | MemoryCacheBackend.OpDelete k => if (k =? key)%string then None else w
  | MemoryCacheBackend.OpClear => None
  end.

Fixpoint last_write (w : option (Value * Z)) (key : string)
    (ops : list (MemoryCacheBackend.op Value)) : option (Value * Z) :=
  match ops with
  | [] => w
  | o :: rest => last_write (write w key o) key rest
  end.

(** The binding a [set] call stores and the call itself, for a list of
    (key, value, ttl, clock reading) records. *)
Definition binding (e : string * Value * Z * Z)
  : string * MemoryCacheBackend.entry (Value := Value) :=
  let '(key, value, ttl_seconds, now) := e in (key, (value, now + ttl_seconds)).

Definition store (e : string * Value * Z * Z) : MemoryCacheBackend.op Value :=
  let '(key, value, ttl_seconds, now) := e in
  MemoryCacheBackend.OpSet key value ttl_seconds now.

End History.
End History.

(** ** [class YouTubeTools]: the callers of the cache
    ([app/utils/youtube_tools.py])

    The caption library ([youtube_transcript_api]), [urllib.parse] and
    Python's [str], [repr] and [int] are external: they are parameters.
    The coroutines are modelled as the sequence of their steps; calls of
    other requests interleaved at an [await] are not. *)

Module YouTubeTools.

(** Exceptions as these functions see them: FastAPI's [HTTPException], an
    exception escaping the cache layer, and any exception of the caption
    library. *)
Inductive exception : Type :=
| HTTPException (status_code : Z) (detail : string)
| BuiltinError (e : exn)
| UpstreamError (message : string).

Inductive outcome (A : Type) : Type :=
| Returns (a : A)
| Raises (e : exception).

Arguments Returns {A} a.
Arguments Raises {A} e.

(** Truthiness of a Python string, and [a or b] on strings. *)
Definition truthy (s : string) : bool := negb (s =? "")%string.

Definition or_else (a b : string) : string := if truthy a then a else b.

(** *** [_get_youtube_api]: the proxy configuration *)

Record ProxySettings : Type := {
  PROXY_TYPE : string;
  PROXY_URL : string;
  PROXY_HTTP : string;
  PROXY_HTTPS : string;
  WEBSHARE_USERNAME : string;
  WEBSHARE_PASSWORD : string
}.

Inductive proxy_config : Type :=
| GenericProxyConfig (http_url https_url : string)
| WebshareProxyConfig (proxy_username proxy_password : string).

(** The [proxy_config] handed to [YouTubeTranscriptApi]; the api object is
    determined by it. *)
Definition _get_youtube_api (settings : ProxySettings) : option proxy_config :=
  if (PROXY_TYPE settings =? "generic")%string && truthy (PROXY_URL settings) then
    Some (GenericProxyConfig (PROXY_URL settings) (PROXY_URL settings))
  else if (PROXY_TYPE settings =? "generic")%string
          && (truthy (PROXY_HTTP settings) || truthy (PROXY_HTTPS settings)) then
    Some (GenericProxyConfig
            (or_else (PROXY_HTTP settings) (PROXY_HTTPS settings))
            (or_else (PROXY_HTTPS settings) (PROXY_HTTP settings)))
  else if (PROXY_TYPE settings =? "webshare")%string
          && truthy (WEBSHARE_USERNAME settings)
          && truthy (WEBSHARE_PASSWORD settings) then
    Some (WebshareProxyConfig (WEBSHARE_USERNAME settings)
            (WEBSHARE_PASSWORD settings))
  else None.

(** *** [get_youtube_video_id] *)

Definition allowed_chars : string :=
  "ABCDEFGHIJKLMNOPQRSTUVWXYZabcdefghijklmnopqrstuvwxyz0123456789_-".

(** [ch in s] for a character *)
Fixpoint char_in (ch : ascii) (s : string) : bool :=
  match s with
  | EmptyString => false
  | String c r => (c =? ch)%char || char_in ch r
  end.

(** [all(ch in allowed_chars for ch in s)] *)
Fixpoint all_allowed (s : string) : bool :=
  match s with
  | EmptyString => true
  | String c r => char_in c allowed_chars && all_allowed r
  end.

(** [s.lstrip("/")] *)
Fixpoint lstrip_slash (s : string) : string :=
  match s with
  | String "/" r => lstrip_slash r
  | _ => s
  end.

(** [s.split("/")] *)
Fixpoint split_slash (s : string) : list string :=
  match s with
  | EmptyString => [""]
  | String "/" r => "" :: split_slash r
  | String c r =>
      match split_slash r with
      | [] => [String c ""]
      | w :: ws => String c w :: ws
      end
  end.

(** What [urlparse] returns, as far as it is read. *)
Record ParseResult : Type := {
  hostname : option string;
  path : string;
  query : string
}.

Section VideoId.
(** [urllib.parse.urlparse] (it raises [ValueError] on some inputs) and
    [urllib.parse.parse_qs]. *)
Variable urlparse : string -> outcome ParseResult.
Variable parse_qs : string -> list (string * list string).

(** [d.get("v", [None])[0]] on the dictionary [parse_qs] returns.  The
    [Raises] branch is Python's IndexError on an empty value list; [parse_qs]
    never produces one. *)
Fixpoint first_v (d : list (string * list string)) : outcome (option string) :=
  match d with
  | [] => Returns None
  | (k, vs) :: r =>
      if (k =? "v")%string then
        match vs with
        | v :: _ => Returns (Some v)
        | [] => Raises (UpstreamError "list index out of range")
        end
      else first_v r
  end.

(** [path.split("/")[2]].  The [Raises] branch is Python's IndexError; after
    the prefix tests of the caller it is not reached (lemmas
    [third_segment_embed], [third_segment_v]). *)
Definition third_segment (p : string) : outcome (option string) :=
  match split_slash p with
  | _ :: _ :: s :: _ => Returns (Some s)
  | _ => Raises (UpstreamError "list index out of range")
  end.

Definition get_youtube_video_id (url_or_id : string) : outcome (option string) :=
  if (String.length url_or_id =? 11)%nat && all_allowed url_or_id then
    Returns (Some url_or_id)
  else
    match urlparse url_or_id with
    | Raises e => Raises e
    | Returns parsed_url =>
        match hostname parsed_url with
        | Some h =>
            if (h =? "youtu.be")%string then
              let s := lstrip_slash (path parsed_url) in
              Returns (if truthy s then Some s else None)
            else if (h =? "www.youtube.com")%string || (h =? "youtube.com")%string then
              if (path parsed_url =? "/watch")%string then
                first_v (parse_qs (query parsed_url))
              else if String.prefix "/embed/" (path parsed_url) then
                third_segment (path parsed_url)
              else if String.prefix "/v/" (path parsed_url) then
                third_segment (path parsed_url)
              else Returns None
            else Returns None
        | None => Returns None
        end
    end.

End VideoId.

(** *** Fetching transcripts *)

Section Fetch.
Context {Float Metadata Redis : Type}.

Local Abbreviation snippet := (TranscriptCache.snippet (Float := Float)).
Local Abbreviation cached :=
  (TranscriptCache.cached (Float := Float) (Metadata := Metadata)).
Local Abbreviation facade :=
  (TranscriptCache.t (Float := Float) (Metadata := Metadata) (Redis := Redis)).

(** A transcript of the caption library, as far as it is used: [translate]
    stands for [t.translate(target).fetch()], and [translation_languages]
    holds the [language_code] of each entry. *)
Record RemoteTranscript : Type := {
  language : string;
  is_translatable : bool;
  translation_languages : list string;
  translate : string -> outcome (list snippet)
}.

(** What [api.list(video_id)] returns: the transcripts in iteration order,
    and its [find_transcript] method. *)
Record TranscriptList : Type := {
  transcripts : list RemoteTranscript;
  find_transcript : list string -> outcome RemoteTranscript
}.

Variable api_fetch : string -> list string -> outcome (list snippet).
Variable api_list : string -> outcome TranscriptList.
(** [str(e)] and the [repr] of a list of strings, for the messages. *)
Variable str : exception -> string.
Variable repr : list string -> string.

Variable redis_get : Redis -> string -> option cached * Redis.
Variable redis_set : Redis -> string -> cached -> Z -> Redis.

(** The loop over [source_languages]: the first language for which
    [find_transcript([lang])] does not raise. *)
Fixpoint find_source (transcript_list : TranscriptList)
    (source_languages : list string) : option RemoteTranscript :=
  match source_languages with
  | [] => None
  | lang :: rest =>
      match find_transcript transcript_list [lang] with
      | Returns t => Some t
      | Raises _ => find_source transcript_list rest
      end
  end.

(** The inner function [_translate_transcript]. *)
Definition _translate_transcript (video_id : string)
    (source_languages : option (list string)) (target_language : string)
  : outcome (list snippet) :=
  match api_list video_id with
  | Raises e => Raises e
  | Returns transcript_list =>
      let preferred :=
        match source_languages with
        | Some l => find_source transcript_list l
        | None => None
        end in
      let transcript_to_translate :=
        match preferred with
        | Some t => Some t
        | None => List.find is_translatable (transcripts transcript_list)
        end in
      match transcript_to_translate with
      | None =>
          Raises (HTTPException 404 "No translatable captions found for this video.")
      | Some t =>
          if negb (is_translatable t) then
            Raises (HTTPException 400
                      ("Captions in '" ++ language t ++ "' cannot be translated."))
          else
            let available_langs := translation_languages t in
            if negb (existsb (String.eqb target_language) available_langs) then
              Raises (HTTPException 400
                        ("Translation to '" ++ target_language
                         ++ "' not available. Available: "
                         ++ repr (firstn 10 available_langs) ++ "..."))
            else translate t target_language
      end
  end.

Definition _fetch_with_translation (video_id : string)
    (source_languages : option (list string)) (target_language : string)
  : outcome (list snippet) :=
  match _translate_transcript video_id source_languages target_language with
  | Returns transcript => Returns transcript
  | Raises (HTTPException status_code detail) =>
      Raises (HTTPException status_code detail)
  | Raises e =>
      Raises (HTTPException 500 ("Error translating captions: " ++ str e))
  end.

(** What [_fetch_transcript] hands back: the object found in the cache, or
    the transcript just fetched. *)
Inductive served : Type :=
| FromCache (v : cached)
| Fetched (transcript : list snippet).

(** The facade after a [cache.set] that raised.  Only the memory backend
    raises, from [popitem] on the empty dictionary: by then the eviction loop
    has popped every binding. *)
Definition after_failed_set (cache : facade) (key : string) : facade :=
  match TranscriptCache._backend cache with
  | Some (TranscriptCache.Memory m) =>
      TranscriptCache.with_backend cache
        (TranscriptCache.Memory (MemoryCacheBackend.clear m))
        (TranscriptCache.CallSet key)
  | _ => cache
  end.

(** [cache.set(video_id, transcript, languages)] as a step of a caller. *)
Definition cache_set (cache : facade) (video_id : string)
    (transcript : list snippet) (languages : list string) (now : Z)
  : outcome unit * facade :=
  match TranscriptCache.set redis_set cache video_id transcript (Some languages) now with
  | Ok cache' => (Returns tt, cache')
  | Raise e =>
      (Raises (BuiltinError e),
       after_failed_set cache
         (TranscriptCache._make_transcript_key video_id (Some languages)))
  end.

Definition LF : string := String "010"%char EmptyString.

Definition captions_unavailable : string :=
  "This video's captions are currently unavailable. "
  ++ "This may be due to:" ++ LF
  ++ "• The video doesn't have captions/subtitles enabled" ++ LF
  ++ "• Temporary YouTube API restrictions" ++ LF
  ++ "• The video is private or restricted" ++ LF ++ LF
  ++ "Try another video or check back later.".

(** [languages or ["en"]] *)
Definition normalize (languages : option (list string)) : list string :=
  match languages with
  | Some ((_ :: _) as l) => l
  | _ => ["en"]
  end.

(** [normalized_languages if not translate_to
     else [f"{normalized_languages[0]}->>{translate_to}"]] *)
Definition cache_key_langs (normalized_languages : list string)
    (translate_to : option string) : list string :=
  match translate_to with
  | Some ((String _ _) as target) => [(hd "" normalized_languages ++ "->>" ++ target)%string]
  | _ => normalized_languages
  end.

(** [now_get] and [now_set] are the clock readings of the [cache.get] and of
    the [cache.set] that stores; a [cache.set] that raises does not read the
    clock. *)
Definition _fetch_transcript (cache : facade) (video_id : string)
    (languages : option (list string)) (translate_to : option string)
    (now_get now_set : Z) : outcome served * facade :=
  let normalized_languages := normalize languages in
  let key_langs := cache_key_langs normalized_languages translate_to in
  let '(cached_transcript, cache) :=
    TranscriptCache.get redis_get cache video_id (Some key_langs) now_get in
  match cached_transcript with
  | Some v => (Returns (FromCache v), cache)
  | None =>
      match translate_to with
      | Some ((String _ _) as target) =>
          match _fetch_with_translation video_id (Some normalized_languages) target with
          | Raises e => (Raises e, cache)
          | Returns transcript =>
              match cache_set cache video_id transcript key_langs now_set with
              | (Returns _, cache) => (Returns (Fetched transcript), cache)
              | (Raises e, cache) => (Raises e, cache)
              end
          end
      | _ =>
          let direct :=
            match api_fetch video_id normalized_languages with
            | Raises e => (Raises e, cache)
            | Returns transcript =>
                match cache_set cache video_id transcript key_langs now_set with
                | (Returns _, cache) => (Returns transcript, cache)
                | (Raises e, cache) => (Raises e, cache)
                end
            end in
          match direct with
          | (Returns transcript, cache) => (Returns (Fetched transcript), cache)
          | (Raises _, cache) =>
              let target_lang := hd "" normalized_languages in
              let fallback :=
                match _fetch_with_translation video_id None target_lang with
                | Raises e => (Raises e, cache)
                | Returns transcript =>
                    match cache_set cache video_id transcript
                            [("auto->>" ++ target_lang)%string] now_set with
                    | (Returns _, cache) => (Returns transcript, cache)
                    | (Raises e, cache) => (Raises e, cache)
                    end
                end in
              match fallback with
              | (Returns transcript, cache) => (Returns (Fetched transcript), cache)
              | (Raises _, cache) =>
                  (Raises (HTTPException 404 captions_unavailable), cache)
              end
          end
      end
  end.

(** *** Rendering a transcript *)

(** [int(x)] on the number a snippet holds. *)
Variable int : Float -> Z.

(** [snippet.text if hasattr(snippet, 'text') else snippet.get('text', '')]
    and the same for [start]. *)
Definition text_of (s : snippet) : string :=
  match s with
  | TranscriptCache.SnippetObject tx _ _ => tx
  | TranscriptCache.SnippetDict d => TranscriptCache.text d
  end.

Definition start_of (s : snippet) : Float :=
  match s with
  | TranscriptCache.SnippetObject _ st _ => st
  | TranscriptCache.SnippetDict d => TranscriptCache.start d
  end.

(** The tail of [get_video_captions], from the fetched transcript on. *)
Definition captions_text (transcript : list snippet) : string :=
  match transcript with
  | [] => "No captions found for video"
  | _ => join " " (map text_of transcript)
  end.

(** [str(n)] and [f"{n:02d}"] on integers. *)
Definition str_int (n : Z) : string := NilZero.string_of_int (Z.to_int n).

Definition format_02d (n : Z) : string :=
  if (0 <=? n) && (n <? 10) then "0" ++ str_int n else str_int n.

(** The loop of [get_video_timestamps]. *)
Definition timestamp_line (s : snippet) : string :=
  let start := int (start_of s) in
  let text := text_of s in
  let minutes := start / 60 in
  let seconds := start mod 60 in
  str_int minutes ++ ":" ++ format_02d seconds ++ " - " ++ text.

Definition timestamps (transcript : list snippet) : list string :=
  map timestamp_line transcript.

End Fetch.
End YouTubeTools.

(** ** Vocabulary for the properties of the callers *)


(** An enabled facade on a memory backend that holds nothing and whose
    capacity is zero or negative, as [TranscriptCache()] constructs it for
    [CACHE_MAX_SIZE <= 0]. *)
Definition starved {Float Metadata Redis : Type}
    (cache : TranscriptCache.t (Float := Float) (Metadata := Metadata)
               (Redis := Redis)) : Prop :=
  TranscriptCache.enabled cache = true /\
  exists m,
    TranscriptCache._backend cache = Some (TranscriptCache.Memory m) /\
    MemoryCacheBackend._cache m = [] /\
    MemoryCacheBackend.max_size m <= 0.

(** ** Sample caption services *)

Module SampleTools.

Definition Snippet : Type := TranscriptCache.snippet (Float := Z).

(** A caption service that answers every direct fetch. *)
Definition api_fetch_ok (video_id : string) (languages : list string)
  : YouTubeTools.outcome (list Snippet) :=
  YouTubeTools.Returns Sample.hi.

(** A caption service that is blocked. *)
Definition api_fetch_down (video_id : string) (languages : list string)
  : YouTubeTools.outcome (list Snippet) :=
  YouTubeTools.Raises (YouTubeTools.UpstreamError "blocked").

Definition api_list_down (video_id : string)
  : YouTubeTools.outcome (YouTubeTools.TranscriptList (Float := Z)) :=
  YouTubeTools.Raises (YouTubeTools.UpstreamError "blocked").

(** One German transcript that can be translated to English and French. *)
Definition german : YouTubeTools.RemoteTranscript (Float := Z) :=
  {| YouTubeTools.language := "German";
     YouTubeTools.is_translatable := true;
     YouTubeTools.translation_languages := ["en"; "fr"];
     YouTubeTools.translate := fun _ => YouTubeTools.Returns Sample.hi |}.

Definition api_list_german (video_id : string)
  : YouTubeTools.outcome (YouTubeTools.TranscriptList (Float := Z)) :=
  YouTubeTools.Returns
    {| YouTubeTools.transcripts := [german];
       YouTubeTools.find_transcript := fun langs =>
         if existsb (String.eqb "de") langs
         then YouTubeTools.Returns german
         else YouTubeTools.Raises (YouTubeTools.UpstreamError "NoTranscriptFound") |}.

(** Stand-ins for [str] and [repr]. *)
Definition str (e : YouTubeTools.exception) : string :=
  match e with
  | YouTubeTools.HTTPException _ detail => detail
  | YouTubeTools.BuiltinError (KeyError msg) => msg
  | YouTubeTools.BuiltinError (ConnectionError msg) => msg
  | YouTubeTools.UpstreamError message => message
  end.

Definition repr (l : list string) : string := "[" ++ join ", " l ++ "]".

(** A URL parser that knows two addresses. *)
Definition urlparse (url : string) : YouTubeTools.outcome YouTubeTools.ParseResult :=
  if (url =? "https://youtu.be/dQw4w9WgXcQ")%string then
    YouTubeTools.Returns {| YouTubeTools.hostname := Some "youtu.be";
                            YouTubeTools.path := "/dQw4w9WgXcQ";
                            YouTubeTools.query := "" |}
  else if (url =? "https://www.youtube.com/embed/dQw4w9WgXcQ/x")%string then
    YouTubeTools.Returns {| YouTubeTools.hostname := Some "www.youtube.com";
                            YouTubeTools.path := "/embed/dQw4w9WgXcQ/x";
                            YouTubeTools.query := "" |}
  else YouTubeTools.Returns {| YouTubeTools.hostname := None;
                               YouTubeTools.path := url;
                               YouTubeTools.query := "" |}.

Definition parse_qs (query : string) : list (string * list string) := [].

(** Three writes of distinct keys. *)
Definition three_writes : list (string * nat * Z * Z) :=
  [("a", 1%nat, 60, 0); ("b", 2%nat, 60, 1); ("c", 3%nat, 60, 2)].

End SampleTools.

(** ** A scan during which the clock advances *)

Module SlowScan.

Definition Cached : Type :=
  TranscriptCache.cached (Float := Z) (Metadata := list (string * string)).

(** Expires at instant 10. *)
Definition first : string * MemoryCacheBackend.entry (Value := Cached) :=
  ("metadata:a", (TranscriptCache.CachedMetadata [("title", "a")], 10)).

(** Expires at instant 5. *)
Definition second : string * MemoryCacheBackend.entry (Value := Cached) :=
  ("metadata:b", (TranscriptCache.CachedMetadata [("title", "b")], 5)).

Definition cache : Sample.Facade :=
  {| TranscriptCache.enabled := true;
     TranscriptCache.ttl_seconds := 3600;
     TranscriptCache.max_size := 3;
     TranscriptCache.backend_type := "memory";
     TranscriptCache._backend :=
       Some (TranscriptCache.Memory
               {| MemoryCacheBackend._cache := [first; second];
                  MemoryCacheBackend.max_size := 3 |});
     TranscriptCache.trace := [] |}.

(** The [i]-th reading of the clock is [10 + i]. *)
Definition clock (i : nat) : Z := 10 + Z.of_nat i.

End SlowScan.

(** * Properties *)

(** ** Facts about the ordered dictionary *)

Section DictFacts.
Context {V : Type}.
Implicit Types (d : OrderedDict.t V) (key k : string) (v : V).

Lemma lookup_app d1 d2 key :
  OrderedDict.lookup (d1 ++ d2) key =
  match OrderedDict.lookup d1 key with
  | Some v => Some v
  | None => OrderedDict.lookup d2 key
  end.
Proof.
  induction d1 as [|[k x] r IH]; simpl; [reflexivity|].
  destruct (k =? key)%string; [reflexivity | exact IH].
Qed.

Lemma lookup_None_keys d key :
  OrderedDict.lookup d key = None <-> ~ In key (OrderedDict.keys d).
Proof.
  induction d as [|[k x] r IH]; simpl.
  - tauto.
  - destruct (String.eqb_spec k key) as [->|Hne].
    + split; [discriminate | intros H; exfalso; apply H; now left].
    + rewrite IH. tauto.
Qed.

Lemma lookup_Some_In d key v :
  OrderedDict.lookup d key = Some v -> In (key, v) d.
Proof.
  induction d as [|[k x] r IH]; simpl; [discriminate|].
  destruct (String.eqb_spec k key) as [->|Hne].
  - intros [= ->]. now left.
  - intros H. right. now apply IH.
Qed.

Lemma keys_app d1 d2 :
  OrderedDict.keys (d1 ++ d2) = OrderedDict.keys d1 ++ OrderedDict.keys d2.
Proof. apply map_app. Qed.

Lemma lookup_del_same d key :
  OrderedDict.lookup (OrderedDict.del d key) key = None.
Proof.
  induction d as [|[k x] r IH]; simpl; [reflexivity|].
  destruct (k =? key)%string eqn:E; simpl; [exact IH|].
  now rewrite E.
Qed.

Lemma lookup_del_other d key k :
  k <> key ->
  OrderedDict.lookup (OrderedDict.del d key) k = OrderedDict.lookup d k.
Proof.
  intros Hne. induction d as [|[k' x] r IH]; simpl; [reflexivity|].
  destruct (String.eqb_spec k' key) as [->|Hk]; simpl.
  - destruct (String.eqb_spec key k) as [->|_]; [congruence | exact IH].
  - now rewrite IH.
Qed.

Lemma del_absent d key :
  OrderedDict.lookup d key = None -> OrderedDict.del d key = d.
Proof.
  induction d as [|[k x] r IH]; simpl; [reflexivity|].
  destruct (k =? key)%string; simpl; [discriminate|].
  intros H. now rewrite IH.
Qed.

Lemma del_del d key k :
  OrderedDict.del (OrderedDict.del d key) k =
  OrderedDict.del (OrderedDict.del d k) key.
Proof.
  unfold OrderedDict.del. induction d as [|[k' x] r IH]; simpl; [reflexivity|].
  destruct (k' =? key)%string eqn:E1, (k' =? k)%string eqn:E2; simpl;
    rewrite ?E1, ?E2; simpl; now rewrite ?IH.
Qed.

Lemma del_app d1 d2 key :
  OrderedDict.del (d1 ++ d2) key =
  OrderedDict.del d1 key ++ OrderedDict.del d2 key.
Proof. apply filter_app. Qed.

Lemma length_del_le d key :
  (List.length (OrderedDict.del d key) <= List.length d)%nat.
Proof. apply filter_length_le. Qed.

Lemma keys_del_incl d key k :
  In k (OrderedDict.keys (OrderedDict.del d key)) ->
  In k (OrderedDict.keys d) /\ k <> key.
Proof.
  unfold OrderedDict.keys, OrderedDict.del.
  rewrite !in_map_iff. intros [[k' x] [<- Hin]].
  apply filter_In in Hin. destruct Hin as [Hin Hb]. simpl in *.
  split; [exists (k', x); auto|].
  destruct (String.eqb_spec k' key); [discriminate | assumption].
Qed.

Lemma wf_del d key : OrderedDict.wf d -> OrderedDict.wf (OrderedDict.del d key).
Proof.
  unfold OrderedDict.wf. induction d as [|[k x] r IH]; simpl; [auto|].
  intros H. inversion H as [|? ? Hnin Hr]; subst.
  destruct (k =? key)%string; simpl; [now apply IH|].
  constructor; [|now apply IH].
  intros Hin. apply keys_del_incl in Hin. tauto.
Qed.

Lemma wf_snoc d key v :
  OrderedDict.wf d -> OrderedDict.lookup d key = None ->
  OrderedDict.wf (d ++ [(key, v)]).
Proof.
  unfold OrderedDict.wf. intros Hwf Hnone. rewrite keys_app. simpl.
  apply lookup_None_keys in Hnone.
  apply NoDup_app; [assumption | repeat constructor; simpl; tauto |].
  intros k Hk [<-|[]]. contradiction.
Qed.

Lemma wf_tail (kv : string * V) d : OrderedDict.wf (kv :: d) -> OrderedDict.wf d.
Proof. unfold OrderedDict.wf. simpl. intros H. now inversion H. Qed.

(** Deleting a key that is present drops exactly one binding. *)
Lemma length_del_present d key v :
  OrderedDict.wf d -> OrderedDict.lookup d key = Some v ->
  S (List.length (OrderedDict.del d key)) = List.length d.
Proof.
  unfold OrderedDict.wf. induction d as [|[k x] r IH]; simpl; [discriminate|].
  intros Hwf. inversion Hwf as [|? ? Hnin Hr]; subst.
  destruct (String.eqb_spec k key) as [->|Hne]; simpl.
  - intros _. f_equal. f_equal. apply del_absent.
    now apply lookup_None_keys.
  - intros H. f_equal. now apply IH.
Qed.

Lemma setitem_absent d key v :
  OrderedDict.lookup d key = None ->
  OrderedDict.setitem d key v = d ++ [(key, v)].
Proof.
  induction d as [|[k x] r IH]; simpl; [reflexivity|].
  destruct (k =? key)%string; [discriminate|].
  intros H. now rewrite IH.
Qed.

Lemma contains_true d key :
  OrderedDict.contains d key = true <-> exists v, OrderedDict.lookup d key = Some v.
Proof.
  unfold OrderedDict.contains. destruct (OrderedDict.lookup d key).
  - split; eauto.
  - split; [discriminate | intros [? [=]]].
Qed.

(** The conditional delete used by [set] and [delete]. *)
Lemma del_if_contains d key :
  (if OrderedDict.contains d key then OrderedDict.del d key else d) =
  OrderedDict.del d key.
Proof.
  unfold OrderedDict.contains.
  destruct (OrderedDict.lookup d key) eqn:E; [reflexivity|].
  symmetry. now apply del_absent.
Qed.

Lemma lookup_skipn_None d key n :
  OrderedDict.lookup d key = None ->
  OrderedDict.lookup (skipn n d) key = None.
Proof.
  rewrite !lookup_None_keys. intros H Hin. apply H.
  unfold OrderedDict.keys in *. rewrite in_map_iff in *.
  destruct Hin as [kv [Hk Hin]]. exists kv. split; [assumption|].
  rewrite <- (firstn_skipn n d). apply in_or_app. now right.
Qed.

Lemma wf_skipn d n : OrderedDict.wf d -> OrderedDict.wf (skipn n d).
Proof.
  revert d. induction n as [|n IH]; intros d; [now rewrite skipn_O|].
  destruct d as [|kv r]; simpl; [auto|].
  intros H. apply IH. eapply wf_tail; eauto.
Qed.

End DictFacts.

(** ** The bounded-LRU backend *)

Section MemoryFacts.
Context {Value : Type}.
Import MemoryCacheBackend.
Implicit Types (self : MemoryCacheBackend.t Value) (key : string)
  (d : OrderedDict.t (entry (Value := Value))).

Lemma evict_ok ms d :
  1 <= ms -> evict ms d = Ok (skipn (evicted ms (List.length d)) d).
Proof.
  intros Hms. unfold evicted. induction d as [|kv r IH].
  - cbn [evict List.length]. rewrite skipn_nil.
    destruct (Z.geb_spec (Z.of_nat 0) ms); [lia | reflexivity].
  - cbn [evict]. destruct (Z.geb_spec (Z.of_nat (List.length (kv :: r))) ms) as [Hge|Hlt].
    + rewrite IH. f_equal. cbn [List.length] in *.
      replace (Z.to_nat (Z.of_nat (S (List.length r)) + 1 - ms))
        with (S (Z.to_nat (Z.of_nat (List.length r) + 1 - ms))) by lia.
      reflexivity.
    + replace (Z.to_nat (Z.of_nat (List.length (kv :: r)) + 1 - ms)) with 0%nat by lia.
      reflexivity.
Qed.

Lemma evict_suffix ms d d1 : evict ms d = Ok d1 -> exists n, d1 = skipn n d.
Proof.
  induction d as [|kv r IH]; cbn [evict].
  - destruct (_ >=? _); [discriminate | intros [= <-]; now exists 0%nat].
  - destruct (_ >=? _).
    + intros H. destruct (IH H) as [n ->]. now exists (S n).
    + intros [= <-]. now exists 0%nat.
Qed.

Lemma evict_length ms d d1 :
  evict ms d = Ok d1 -> Z.of_nat (List.length d1) < ms.
Proof.
  induction d as [|kv r IH]; cbn [evict].
  - destruct (Z.geb_spec (Z.of_nat (List.length (@nil (string * entry (Value := Value))))) ms);
      [discriminate | intros [= <-]; assumption].
  - destruct (Z.geb_spec (Z.of_nat (List.length (kv :: r))) ms);
      [exact IH | intros [= <-]; assumption].
Qed.

Lemma evict_unfold ms d :
  evict ms d =
  if Z.of_nat (List.length d) >=? ms
  then kv_r <- OrderedDict.popitem_first d ;; evict ms (snd kv_r)
  else Ok d.
Proof. destruct d; reflexivity. Qed.

Lemma evict_raises ms d :
  ms <= 0 -> evict ms d = Raise (KeyError "dictionary is empty").
Proof.
  intros Hms. induction d as [|kv r IH]; cbn [evict];
    match goal with |- context [?a >=? ?b] => destruct (Z.geb_spec a b) end;
    try reflexivity; try exact IH; cbn [List.length] in *; lia.
Qed.

(** What [set] computes, for every capacity that lets it return. *)
Lemma set_ok self key value ttl now :
  1 <= max_size self ->
  set self key value ttl now =
  Ok {| _cache :=
          skipn (evicted (max_size self)
                   (List.length (OrderedDict.del (_cache self) key)))
            (OrderedDict.del (_cache self) key)
          ++ [(key, (value, now + ttl))];
        max_size := max_size self |}.
Proof.
  intros Hms. unfold set. rewrite del_if_contains, evict_ok by assumption.
  cbn [bind]. rewrite setitem_absent; [reflexivity|].
  apply lookup_skipn_None, lookup_del_same.
Qed.

Lemma set_inv self key value ttl now self' :
  set self key value ttl now = Ok self' ->
  exists n,
    _cache self' = skipn n (OrderedDict.del (_cache self) key)
                     ++ [(key, (value, now + ttl))]
    /\ max_size self' = max_size self
    /\ Z.of_nat (List.length (skipn n (OrderedDict.del (_cache self) key)))
       < max_size self.
Proof.
  unfold set. rewrite del_if_contains.
  destruct (evict _ _) as [d1|e] eqn:E; cbn [bind]; [|discriminate].
  intros [= <-]. pose proof (evict_length _ _ E) as Hlen.
  destruct (evict_suffix _ _ E) as [n ->]. exists n. cbn.
  rewrite setitem_absent; [auto|].
  apply lookup_skipn_None, lookup_del_same.
Qed.

Lemma get_miss self key now :
  OrderedDict.lookup (_cache self) key = None -> get self key now = (None, self).
Proof. unfold get. now intros ->. Qed.

Lemma get_expired self key value expiry now :
  OrderedDict.lookup (_cache self) key = Some (value, expiry) ->
  expiry < now ->
  get self key now =
  (None, {| _cache := OrderedDict.del (_cache self) key;
            max_size := max_size self |}).
Proof.
  unfold get. intros -> Hexp.
  destruct (Z.gtb_spec now expiry); [reflexivity | lia].
Qed.

Lemma get_hit self key value expiry now :
  OrderedDict.lookup (_cache self) key = Some (value, expiry) ->
  now <= expiry ->
  get self key now =
  (Some value, {| _cache := OrderedDict.del (_cache self) key
                              ++ [(key, (value, expiry))];
                  max_size := max_size self |}).
Proof.
  unfold get, OrderedDict.move_to_end. intros -> Hfresh.
  destruct (Z.gtb_spec now expiry); [lia | reflexivity].
Qed.

Lemma length_del_lt d key e :
  OrderedDict.lookup d key = Some e ->
  (S (List.length (OrderedDict.del d key)) <= List.length d)%nat.
Proof.
  induction d as [|[k x] r IH]; simpl; [discriminate|].
  destruct (k =? key)%string; simpl.
  - intros _. pose proof (length_del_le r key). lia.
  - intros H. apply IH in H. lia.
Qed.

Lemma get_preserves self key now :
  bounded self ->
  bounded (snd (get self key now)) /\
  max_size (snd (get self key now)) = max_size self.
Proof.
  intros [Hwf Hsz]. unfold bounded, size in *.
  destruct (OrderedDict.lookup (_cache self) key) as [[v e]|] eqn:E.
  - destruct (Z.le_gt_cases now e) as [Hfresh|Hexp].
    + rewrite (get_hit _ _ E Hfresh). cbn. repeat split.
      * apply wf_snoc; [now apply wf_del | apply lookup_del_same].
      * rewrite length_app. cbn. pose proof (length_del_lt _ _ E). lia.
    + rewrite (get_expired _ _ E Hexp). cbn. repeat split.
      * now apply wf_del.
      * pose proof (length_del_le (_cache self) key). lia.
  - rewrite (get_miss _ _ now E). cbn. auto.
Qed.

Lemma set_preserves self key value ttl now self' :
  OrderedDict.wf (_cache self) ->
  set self key value ttl now = Ok self' ->
  bounded self' /\ max_size self' = max_size self.
Proof.
  intros Hwf H. destruct (set_inv _ _ _ _ _ H) as [n [Hc [Hm Hlen]]].
  unfold bounded, size. rewrite Hc, Hm. repeat split.
  - apply wf_snoc; [apply wf_skipn; now apply wf_del|].
    apply lookup_skipn_None, lookup_del_same.
  - rewrite length_app. cbn. lia.
Qed.

Lemma delete_preserves self key :
  bounded self ->
  bounded (delete self key) /\ max_size (delete self key) = max_size self.
Proof.
  intros [Hwf Hsz]. unfold delete, bounded, size in *.
  destruct (OrderedDict.contains (_cache self) key); cbn; [|auto].
  repeat split; [now apply wf_del|].
  pose proof (length_del_le (_cache self) key). lia.
Qed.

Lemma run_preserves ops : forall self,
  1 <= max_size self -> bounded self ->
  exists self', run self ops = Ok self' /\ bounded self' /\
                max_size self' = max_size self.
Proof.
  induction ops as [|o rest IH]; intros self Hms Hb.
  - exists self. cbn. auto.
  - assert (exists s1, step self o = Ok s1 /\ bounded s1 /\
                       max_size s1 = max_size self) as [s1 [Hs [Hb1 Hm1]]].
    { destruct o as [key now|key value ttl now|key|]; cbn [step].
      - eexists. split; [reflexivity|]. now apply get_preserves.
      - rewrite set_ok by assumption. eexists. split; [reflexivity|].
        eapply set_preserves; [apply Hb|]. now apply set_ok.
      - eexists. split; [reflexivity|]. now apply delete_preserves.
      - eexists. split; [reflexivity|]. unfold bounded, size, clear. cbn.
        repeat split; [constructor | lia]. }
    cbn [run]. rewrite Hs. cbn [bind].
    destruct (IH s1) as [s2 [Hr [Hb2 Hm2]]]; [lia | assumption |].
    exists s2. repeat split; try apply Hb2; [assumption | congruence].
Qed.

Lemma init_bounded ms : 0 <= ms -> bounded (init (Value := Value) ms).
Proof. intros H. unfold bounded, size, init. cbn. split; [constructor | lia]. Qed.

(** C1.  A backend constructed with a capacity of at least one entry runs
    every finite sequence of get / set / delete / clear calls to completion
    and never holds more than [max_size] entries afterwards.  A [set] first
    removes the key's old binding, then drops exactly as many bindings from
    the least-recently-used end as are needed for the new one to fit, and
    puts the new binding at the most-recently-used end. *)
Theorem memory_backend_size_bounded (ms : Z) (ops : list (op Value)) :
  1 <= ms ->
  (exists self, run (init ms) ops = Ok self /\ size self <= ms) /\
  (forall self key value ttl now,
      max_size self = ms ->
      let d0 := OrderedDict.del (_cache self) key in
      exists self',
        set self key value ttl now = Ok self' /\
        _cache self' =
          skipn (evicted ms (List.length d0)) d0 ++ [(key, (value, now + ttl))] /\
        size self' = Z.min (Z.of_nat (List.length d0) + 1) ms).
Proof.
  intros Hms. split.
  - destruct (run_preserves ops (self := init ms)) as [self [Hr [[_ Hsz] Hm]]].
    + exact Hms.
    + apply init_bounded. lia.
    + exists self. split; [exact Hr|]. cbn in Hm. lia.
  - intros self key value ttl now Hm d0. subst ms d0.
    eexists. split; [now apply set_ok|]. cbn. split; [reflexivity|].
    unfold size. cbn. rewrite length_app, length_skipn. cbn. unfold evicted. lia.
Qed.

(** C3.  For every key, value and ttl > 0, on every backend: when
    [set(key, value, ttl)] is made at instant [now] and [get(key)] follows at
    an instant [now'] that is not later than the expiry [now + ttl], the get
    returns exactly the value that was stored.  The [set] completes on every
    backend whose capacity is at least one entry. *)
Theorem get_after_set_returns_value self key value ttl now now' :
  0 < ttl -> now <= now' -> now' <= now + ttl ->
  (forall self', set self key value ttl now = Ok self' ->
                 fst (get self' key now') = Some value) /\
  (1 <= max_size self -> exists self', set self key value ttl now = Ok self').
Proof.
  intros Httl Hmono Hfresh. split.
  - intros self' H. destruct (set_inv _ _ _ _ _ H) as [n [Hc _]].
    assert (OrderedDict.lookup (_cache self') key = Some (value, now + ttl)) as Hl.
    { rewrite Hc, lookup_app, lookup_skipn_None by apply lookup_del_same.
      cbn. now rewrite String.eqb_refl. }
    now rewrite (get_hit _ _ Hl Hfresh).
  - intros Hms. eexists. now apply set_ok.
Qed.

(** C4.  When the stored expiry of [key] is strictly before the current
    instant, [get(key)] returns absent and removes that entry in the same
    call: the key is no longer bound, every other binding is as it was, and
    [size()] afterwards is one less than before. *)
Theorem get_expired_removes_entry self key value expiry now :
  OrderedDict.wf (_cache self) ->
  OrderedDict.lookup (_cache self) key = Some (value, expiry) ->
  expiry < now ->
  let self' := snd (get self key now) in
  fst (get self key now) = None /\
  OrderedDict.lookup (_cache self') key = None /\
  _cache self' = OrderedDict.del (_cache self) key /\
  (forall k, k <> key ->
             OrderedDict.lookup (_cache self') k = OrderedDict.lookup (_cache self) k) /\
  size self' = size self - 1.
Proof.
  intros Hwf Hl Hexp. rewrite (get_expired _ _ Hl Hexp). cbn [fst snd _cache max_size].
  repeat split.
  - apply lookup_del_same.
  - intros k Hk. now apply lookup_del_other.
  - unfold size. cbn. pose proof (length_del_present _ Hwf Hl). lia.
Qed.

(** C9.  A get on a present key whose expiry has not passed returns the
    value and only moves that entry to the most-recently-used end: its value
    and expiry are the stored ones, the other entries keep their keys,
    values, expiries and relative order, and the number of entries is
    unchanged. *)
Theorem get_hit_changes_only_recency self key value expiry now :
  OrderedDict.wf (_cache self) ->
  OrderedDict.lookup (_cache self) key = Some (value, expiry) ->
  now <= expiry ->
  let self' := snd (get self key now) in
  fst (get self key now) = Some value /\
  _cache self' = OrderedDict.del (_cache self) key ++ [(key, (value, expiry))] /\
  OrderedDict.lookup (_cache self') key = Some (value, expiry) /\
  (forall k, k <> key ->
             OrderedDict.lookup (_cache self') k = OrderedDict.lookup (_cache self) k) /\
  OrderedDict.del (_cache self') key = OrderedDict.del (_cache self) key /\
  size self' = size self /\
  max_size self' = max_size self.
Proof.
  intros Hwf Hl Hfresh. rewrite (get_hit _ _ Hl Hfresh). cbn [fst snd _cache max_size].
  repeat split.
  - rewrite lookup_app, lookup_del_same. cbn. now rewrite String.eqb_refl.
  - intros k Hk. rewrite lookup_app, lookup_del_other by assumption.
    destruct (OrderedDict.lookup (_cache self) k); [reflexivity|].
    cbn. destruct (String.eqb_spec key k); congruence.
  - rewrite del_app. cbn. rewrite String.eqb_refl. cbn.
    rewrite app_nil_r. apply del_absent, lookup_del_same.
  - unfold size. cbn. rewrite length_app. cbn.
    pose proof (length_del_present _ Hwf Hl). lia.
Qed.

End MemoryFacts.

(** ** The recency scenario *)

Section LruScenario.
Context {Value : Type}.
Import MemoryCacheBackend.

Ltac eqb_false H :=
  let E := fresh "E" in
  pose proof H as E; apply String.eqb_neq in E;
  let E' := fresh "E" in
  pose proof E as E'; rewrite String.eqb_sym in E'.

(** C2.  Capacity 3; distinct keys A, B, C are stored in that order, A is
    read while unexpired, then a new key D is stored.  The backend then holds
    C, A, D (oldest first): B has been evicted and a get of B returns absent,
    while gets of A, C and D, made before their expiries, return the values
    stored for them. *)
Theorem lru_recency_scenario (A B C D : string) (vA vB vC vD : Value)
    (ttlA ttlB ttlC ttlD tA tB tC tget tD t : Z) :
  A <> B -> A <> C -> A <> D -> B <> C -> B <> D -> C <> D ->
  tget <= tA + ttlA ->
  t <= tA + ttlA -> t <= tC + ttlC -> t <= tD + ttlD ->
  exists s3 s4 s5,
    run (init 3) [OpSet A vA ttlA tA; OpSet B vB ttlB tB; OpSet C vC ttlC tC]
      = Ok s3 /\
    get s3 A tget = (Some vA, s4) /\
    set s4 D vD ttlD tD = Ok s5 /\
    _cache s5 = [(C, (vC, tC + ttlC)); (A, (vA, tA + ttlA)); (D, (vD, tD + ttlD))] /\
    fst (get s5 B t) = None /\
    fst (get s5 A t) = Some vA /\
    fst (get s5 C t) = Some vC /\
    fst (get s5 D t) = Some vD.
Proof.
  intros AB AC AD BC BD CD HgetA HA HC HD.
  eqb_false AB. eqb_false AC. eqb_false AD.
  eqb_false BC. eqb_false BD. eqb_false CD.
  assert (forall x y, x <= y -> (x >? y) = false) as Hfresh
    by (intros x y Hxy; destruct (Z.gtb_spec x y); [lia | reflexivity]).
  pose proof (Hfresh _ _ HgetA) as F1. pose proof (Hfresh _ _ HA) as F2.
  pose proof (Hfresh _ _ HC) as F3. pose proof (Hfresh _ _ HD) as F4.
  exists {| _cache := [(A, (vA, tA + ttlA)); (B, (vB, tB + ttlB));
                        (C, (vC, tC + ttlC))]; max_size := 3 |}.
  exists {| _cache := [(B, (vB, tB + ttlB)); (C, (vC, tC + ttlC));
                        (A, (vA, tA + ttlA))]; max_size := 3 |}.
  exists {| _cache := [(C, (vC, tC + ttlC)); (A, (vA, tA + ttlA));
                        (D, (vD, tD + ttlD))]; max_size := 3 |}.
  unfold run, step, set, get, init, OrderedDict.contains, OrderedDict.move_to_end,
    OrderedDict.del.
  cbn -[Z.add Z.gtb].
  repeat (rewrite ?String.eqb_refl, ?E, ?E0, ?E1, ?E2, ?E3, ?E4, ?E5, ?E6, ?E7,
            ?E8, ?E9, ?E10, ?F1, ?F2, ?F3, ?F4; cbn -[Z.add Z.gtb]).
  repeat split; reflexivity.
Qed.

End LruScenario.

(** ** Key derivation *)

Section KeyFacts.

Lemma ascii_compare_trans (a b c : ascii) (o : comparison) :
  Ascii.compare a b = o -> Ascii.compare b c = o -> Ascii.compare a c = o.
Proof.
  unfold Ascii.compare. intros H1 H2. destruct o.
  - apply N.compare_eq_iff in H1, H2. apply N.compare_eq_iff. congruence.
  - exact (N.lt_trans _ _ _ H1 H2).
  - apply N.compare_gt_iff in H1, H2. apply N.compare_gt_iff.
    exact (N.lt_trans _ _ _ H2 H1).
Qed.

Lemma string_compare_Lt_trans (a : string) : forall b c,
  String.compare a b = Lt -> String.compare b c = Lt -> String.compare a c = Lt.
Proof.
  induction a as [|x a IH]; intros [|y b] [|z c]; cbn; try congruence.
  destruct (Ascii.compare x y) eqn:Exy; try discriminate;
    destruct (Ascii.compare y z) eqn:Eyz; try discriminate; intros H1 H2.
  - rewrite (ascii_compare_trans _ _ _ Exy Eyz). eauto.
  - apply Ascii.compare_eq_iff in Exy. subst y. now rewrite Eyz.
  - apply Ascii.compare_eq_iff in Eyz. subst z. now rewrite Exy.
  - now rewrite (ascii_compare_trans _ _ _ Exy Eyz).
Qed.

Lemma string_leb_trans (a b c : string) :
  String.leb a b = true -> String.leb b c = true -> String.leb a c = true.
Proof.
  unfold String.leb.
  destruct (String.compare a b) eqn:Eab; try discriminate;
    destruct (String.compare b c) eqn:Ebc; try discriminate; intros _ _.
  - apply String.compare_eq_iff in Eab. subst. now rewrite Ebc.
  - apply String.compare_eq_iff in Eab. subst. now rewrite Ebc.
  - apply String.compare_eq_iff in Ebc. subst. now rewrite Eab.
  - now rewrite (string_compare_Lt_trans _ _ _ Eab Ebc).
Qed.

Lemma string_leb_false (a b : string) :
  String.leb a b = false -> String.leb b a = true.
Proof. intros H. destruct (String.leb_total a b); congruence. Qed.

(** Two insertions commute, whatever the list. *)
Lemma insert_sorted_comm (x y : string) (l : list string) :
  insert_sorted x (insert_sorted y l) = insert_sorted y (insert_sorted x l).
Proof.
  induction l as [|a r IH]; cbn.
  - destruct (String.leb x y) eqn:Exy, (String.leb y x) eqn:Eyx; try reflexivity.
    + now rewrite (String.leb_antisym _ _ Exy Eyx).
    + apply string_leb_false in Exy. congruence.
  - destruct (String.leb y a) eqn:Eya, (String.leb x a) eqn:Exa; cbn;
      rewrite ?Eya, ?Exa.
    + destruct (String.leb x y) eqn:Exy, (String.leb y x) eqn:Eyx; try reflexivity.
      * now rewrite (String.leb_antisym _ _ Exy Eyx).
      * apply string_leb_false in Exy. congruence.
    + destruct (String.leb x y) eqn:Exy; [|reflexivity].
      rewrite (string_leb_trans _ _ _ Exy Eya) in Exa. discriminate.
    + destruct (String.leb y x) eqn:Eyx; [|reflexivity].
      rewrite (string_leb_trans _ _ _ Eyx Exa) in Eya. discriminate.
    + now rewrite IH.
Qed.

Lemma sorted_Permutation (l1 l2 : list string) :
  Permutation l1 l2 -> sorted l1 = sorted l2.
Proof.
  induction 1; cbn; try congruence.
  apply insert_sorted_comm.
Qed.

(** C5.  The transcript key does not depend on the order of the language
    list: any two lists that are permutations of one another give the same
    key, in particular ["en","es"] and ["es","en"]; and with no language list
    the key is the one derived from ["en"]. *)
Theorem transcript_key_canonical (video_id : string) :
  (forall l1 l2 : list string,
      Permutation l1 l2 ->
      TranscriptCache._make_transcript_key video_id (Some l1) =
      TranscriptCache._make_transcript_key video_id (Some l2)) /\
  TranscriptCache._make_transcript_key video_id (Some ["en"; "es"]) =
  TranscriptCache._make_transcript_key video_id (Some ["es"; "en"]) /\
  TranscriptCache._make_transcript_key video_id None =
  TranscriptCache._make_transcript_key video_id (Some ["en"]).
Proof.
  split; [|split; reflexivity].
  intros l1 l2 HP. unfold TranscriptCache._make_transcript_key.
  destruct l1 as [|a1 r1], l2 as [|a2 r2]; try reflexivity.
  - apply Permutation_nil in HP. discriminate.
  - apply Permutation_sym, Permutation_nil in HP. discriminate.
  - now rewrite (sorted_Permutation HP).
Qed.

End KeyFacts.

(** ** The facade *)

Section FacadeFacts.
Context {Float Metadata Redis : Type}.
Import TranscriptCache.

Local Abbreviation cached := (TranscriptCache.cached (Float := Float) (Metadata := Metadata)).
Local Abbreviation facade := (TranscriptCache.t (Float := Float) (Metadata := Metadata) (Redis := Redis)).
Local Abbreviation dict := (OrderedDict.t (MemoryCacheBackend.entry (Value := cached))).

Variable redis_init : string -> result Redis.
Variable redis_get : Redis -> string -> option cached * Redis.
Variable redis_set : Redis -> string -> cached -> Z -> Redis.
Variable redis_clear : Redis -> Redis.
Variable redis_size : Redis -> Z * Redis.

(** With a capacity of at least one entry, or the remote backend, or no
    backend, both writes of the facade return. *)
Lemma facade_writes_return (self : facade) video_id transcript languages metadata now :
  (forall m, _backend self = Some (Memory m) -> 1 <= MemoryCacheBackend.max_size m) ->
  (exists self', set redis_set self video_id transcript languages now = Ok self') /\
  (exists self', set_metadata redis_set self video_id metadata now = Ok self').
Proof.
  intros Hcap. unfold set, set_metadata.
  destruct (enabled self); [|split; eauto].
  destruct (_backend self) as [[m|r]|]; [| split; cbn; eauto | split; eauto].
  specialize (Hcap m eq_refl). unfold backend_set.
  rewrite !set_ok by assumption. cbn. split; eauto.
Qed.

(** C6.  With [CACHE_MAX_SIZE = 0] and the memory backend, a write through
    the facade does not return: the eviction loop pops from the empty
    dictionary and the [KeyError] reaches the caller of [set] and of
    [set_metadata]. *)
Theorem facade_set_raises_at_capacity_zero (st du : Float) (md : Metadata) (now : Z) :
  let settings := {| CACHE_ENABLED := true;
                     CACHE_TTL_SECONDS := 3600;
                     CACHE_MAX_SIZE := 0;
                     CACHE_BACKEND := "memory";
                     REDIS_URL := "redis://localhost:6379" |} in
  set redis_set (init redis_init settings) "abc12345678"
    [SnippetDict {| text := "hi"; start := st; duration := du |}]
    (Some ["en"]) now
  = Raise (KeyError "dictionary is empty") /\
  set_metadata redis_set (init redis_init settings) "abc12345678" md now
  = Raise (KeyError "dictionary is empty").
Proof. split; reflexivity. Qed.

(** A facade whose [enabled] flag is off answers every transcript and
    metadata call without calling its backend and without changing. *)
Lemma disabled_step (self : facade) (o : op) :
  enabled self = false ->
  step redis_get redis_set self o = Ok (None, self).
Proof.
  intros Hoff. destruct o; cbn; unfold get, set, get_metadata, set_metadata;
    rewrite Hoff; reflexivity.
Qed.

Lemma disabled_run (ops : list op) : forall self : facade,
  enabled self = false ->
  exists outs, run redis_get redis_set self ops = Ok (outs, self) /\
               Forall (fun o => o = None) outs.
Proof.
  induction ops as [|o rest IH]; intros self Hoff; cbn [run].
  - exists []. split; [reflexivity | constructor].
  - rewrite (disabled_step _ o Hoff). cbn [bind snd fst].
    destruct (IH self Hoff) as [outs [-> Hall]]. cbn [bind snd fst].
    destruct o; eexists; (split; [reflexivity|]); auto.
Qed.

(** C7.  A facade constructed with the cache switched off has no backend.
    Every get on it (transcript or metadata) returns absent and every set
    returns, each leaving the facade exactly as it was, with no call made on
    a backend; after any sequence of such calls the facade is still the one
    that was constructed, every get of the sequence returned absent, no
    backend call has been made, and [size()] returns 0. *)
Theorem disabled_facade_is_inert (settings : Settings) (ops : list op) :
  CACHE_ENABLED settings = false ->
  let self : facade := init redis_init settings in
  _backend self = None /\
  (forall video_id languages transcript metadata now,
      get redis_get self video_id languages now = (None, self) /\
      get_metadata redis_get self video_id now = (None, self) /\
      set redis_set self video_id transcript languages now = Ok self /\
      set_metadata redis_set self video_id metadata now = Ok self) /\
  exists outs,
    run redis_get redis_set self ops = Ok (outs, self) /\
    Forall (fun o => o = None) outs /\
    trace self = [] /\
    size redis_size self = (0, self).
Proof.
  intros Hoff self.
  assert (enabled self = false) as He by (unfold self, init; now rewrite Hoff).
  assert (_backend self = None) as Hb by (unfold self, init; now rewrite Hoff).
  split; [exact Hb|]. split.
  - intros. unfold get, get_metadata, set, set_metadata. now rewrite He.
  - destruct (disabled_run ops self He) as [outs [Hr Hall]].
    exists outs. repeat split; try assumption.
    + unfold self, init. now rewrite Hoff.
    + unfold size. now rewrite Hb.
Qed.


Lemma checked_from_cons (clock : nat -> Z) (i : nat) kv (d : dict) :
  checked_from clock i (kv :: d) = (kv, clock i) :: checked_from clock (S i) d.
Proof. reflexivity. Qed.

(** The scan, started on the bindings [rest] that are still to be examined
    while [done] holds the ones already examined and kept. *)
Lemma cleanup_scan_spec (clock : nat -> Z) (rest : dict) :
  forall (done : dict) (i : nat) (n : Z),
    OrderedDict.wf (done ++ rest) ->
    cleanup_scan (OrderedDict.keys rest) clock i (done ++ rest) n =
    (n + Z.of_nat (List.length
                     (filter expired_when_checked (checked_from clock i rest))),
     done ++ map fst (filter (fun p => negb (expired_when_checked p))
                        (checked_from clock i rest))).
Proof.
  induction rest as [|[k [v e]] r IH]; intros done i n Hwf.
  - cbn. f_equal. lia.
  - assert (OrderedDict.lookup done k = None /\ OrderedDict.lookup r k = None)
      as [Hd Hr].
    { unfold OrderedDict.wf in Hwf. rewrite keys_app in Hwf. cbn in Hwf.
      apply NoDup_remove_2 in Hwf. rewrite !lookup_None_keys.
      split; intros Hin; apply Hwf, in_or_app; auto. }
    assert (OrderedDict.wf (done ++ r)) as Hwf'.
    { unfold OrderedDict.wf in *. rewrite keys_app in *. cbn in Hwf.
      now apply NoDup_remove_1 in Hwf. }
    cbn [OrderedDict.keys map fst cleanup_scan].
    rewrite lookup_app, Hd. cbn [OrderedDict.lookup]. rewrite String.eqb_refl.
    rewrite checked_from_cons. cbn [filter].
    change (expired_when_checked ((k, (v, e)), clock i)) with (clock i >? e).
    destruct (clock i >? e) eqn:E; cbn [negb].
    + rewrite del_app. cbn [OrderedDict.del filter fst]. rewrite String.eqb_refl.
      cbn [negb]. fold (OrderedDict.del r k). rewrite !del_absent by assumption.
      fold (OrderedDict.keys r). rewrite IH by assumption.
      cbn [List.length]. f_equal. lia.
    + change (done ++ (k, (v, e)) :: r) with (done ++ [(k, (v, e))] ++ r).
      rewrite app_assoc. fold (OrderedDict.keys r). rewrite IH.
      * cbn [map fst]. now rewrite <- app_assoc.
      * now rewrite <- app_assoc.
Qed.

Lemma kept_at_instant (clock : nat -> Z) (now : Z) (d : dict) :
  (forall i, clock i = now) ->
  forall i,
    map fst (filter (fun p => negb (expired_when_checked p)) (checked_from clock i d))
    = filter (fun kv => negb (expired_at now kv)) d /\
    List.length (filter expired_when_checked (checked_from clock i d))
    = List.length (filter (expired_at now) d).
Proof.
  intros Hc. induction d as [|kv r IH]; intros i; [split; reflexivity|].
  rewrite checked_from_cons. cbn [filter].
  change (expired_when_checked (kv, clock i)) with (clock i >? snd (snd kv)).
  change (expired_at now kv) with (now >? snd (snd kv)).
  rewrite Hc. destruct (IH (S i)) as [IH1 IH2].
  destruct (now >? snd (snd kv)); cbn [negb map fst List.length];
    rewrite ?IH1, ?IH2; split; reflexivity.
Qed.

(** C10 (as amended).  [cleanup_expired] on an enabled facade with the
    memory backend examines every binding once, reading the clock anew for
    each, removes exactly the bindings whose expiry had passed at the reading
    taken when they were examined, and returns how many it removed: the
    count and the number of bindings left add up to the old size.  The
    backend afterwards holds the other bindings, with their values and
    expiries, in their old order, and nothing else of the facade changes.
    When the whole scan reads one instant [now], what is kept is the
    dictionary filtered by "not expired at [now]", the count is the number
    of bindings expired at [now], and no binding left is expired at [now].
    With the facade disabled, or a backend that is not the memory backend, it
    returns 0 and the facade is unchanged. *)
Theorem cleanup_expired_removes_expired (self : facade) (clock : nat -> Z) :
  (forall m,
      enabled self = true ->
      _backend self = Some (Memory m) ->
      OrderedDict.wf (MemoryCacheBackend._cache m) ->
      let checked := checked_from clock 0 (MemoryCacheBackend._cache m) in
      let kept := map fst (filter (fun p => negb (expired_when_checked p)) checked) in
      let removed := fst (cleanup_expired self clock) in
      let self' := snd (cleanup_expired self clock) in
      removed = Z.of_nat (List.length (filter expired_when_checked checked)) /\
      _backend self' =
        Some (Memory {| MemoryCacheBackend._cache := kept;
                        MemoryCacheBackend.max_size :=
                          MemoryCacheBackend.max_size m |}) /\
      removed + Z.of_nat (List.length kept)
        = Z.of_nat (List.length (MemoryCacheBackend._cache m)) /\
      (forall kv, In kv kept -> In kv (MemoryCacheBackend._cache m)) /\
      (enabled self' = enabled self /\ ttl_seconds self' = ttl_seconds self /\
       max_size self' = max_size self /\ backend_type self' = backend_type self /\
       trace self' = trace self) /\
      (forall now,
          (forall i, clock i = now) ->
          kept = filter (fun kv => negb (expired_at now kv))
                   (MemoryCacheBackend._cache m) /\
          removed =
            Z.of_nat (List.length
                        (filter (expired_at now) (MemoryCacheBackend._cache m))) /\
          Forall (fun kv => expired_at now kv = false) kept)) /\
  (enabled self = false \/ (forall m, _backend self <> Some (Memory m)) ->
   cleanup_expired self clock = (0, self)).
Proof.
  split.
  - intros m Hon Hb Hwf checked kept removed self'.
    assert (cleanup_expired self clock =
            (Z.of_nat (List.length (filter expired_when_checked checked)),
             with_memory_cache self m kept)) as Hrun.
    { unfold cleanup_expired. rewrite Hon, Hb.
      pose proof (cleanup_scan_spec clock (MemoryCacheBackend._cache m) [] 0 0 Hwf)
        as Hscan.
      cbn [app] in Hscan. rewrite Hscan. reflexivity. }
    subst removed self'. rewrite Hrun. cbn [fst snd].
    assert (List.length checked = List.length (MemoryCacheBackend._cache m)) as Hlen.
    { unfold checked, checked_from.
      rewrite length_combine, length_map, length_seq. lia. }
    split; [reflexivity|]. split; [reflexivity|]. split; [|split; [|split]].
    + unfold kept. rewrite length_map.
      pose proof (filter_length expired_when_checked checked). lia.
    + intros kv Hin. unfold kept in Hin. apply in_map_iff in Hin.
      destruct Hin as [[kv' t] [<- Hin]]. apply filter_In in Hin.
      destruct Hin as [Hin _]. unfold checked, checked_from in Hin.
      now apply in_combine_l in Hin.
    + cbn. auto.
    + intros now Hc.
      destruct (kept_at_instant clock (MemoryCacheBackend._cache m) Hc 0)
        as [Hk Hn].
      fold checked in Hk, Hn. fold kept in Hk. split; [assumption|].
      split; [now rewrite Hn|].
      rewrite Hk. apply Forall_forall. intros kv Hin.
      apply filter_In in Hin. now apply negb_true_iff.
  - intros [Hoff|Hnm]; unfold cleanup_expired.
    + now rewrite Hoff.
    + destruct (enabled self); [|reflexivity].
      destruct (_backend self) as [[m|r]|]; try reflexivity.
      now destruct (Hnm m).
Qed.

End FacadeFacts.

(** ** Worked examples *)

Section Examples.
Import MemoryCacheBackend.

Example key_sorted_joined :
  TranscriptCache._make_transcript_key "X" (Some ["es"; "en"]) = "transcript:X:en,es".
Proof. reflexivity. Qed.

Example key_default :
  TranscriptCache._make_transcript_key "X" None = "transcript:X:en" /\
  TranscriptCache._make_transcript_key "X" (Some []) = "transcript:X:en".
Proof. split; reflexivity. Qed.

Example key_metadata :
  TranscriptCache._make_metadata_key "abc12345678" = "metadata:abc12345678".
Proof. reflexivity. Qed.

(** Capacity 2, three distinct keys, no read in between: the first key
    stored is the one evicted. *)
Example eviction_of_first_inserted :
  run (init 2) [OpSet "a" 1%nat 60 0; OpSet "b" 2%nat 60 1; OpSet "c" 3%nat 60 2]
  = Ok {| _cache := [("b", (2%nat, 61)); ("c", (3%nat, 62))]; max_size := 2 |}.
Proof. reflexivity. Qed.

(** A store followed by a read under the same languages returns the
    transcript; a read under another language misses. *)
Example store_then_fetch :
  exists f,
    TranscriptCache.set UnreachableRedis.set (Sample.new (Sample.memory 1000))
      "abc12345678" Sample.hi (Some ["en"]) 0 = Ok f /\
    fst (TranscriptCache.get UnreachableRedis.get f "abc12345678" (Some ["en"]) 1)
    = Some (TranscriptCache.CachedTranscript
              [{| TranscriptCache.text := "hi"; TranscriptCache.start := 0;
                  TranscriptCache.duration := 1000 |}]) /\
    fst (TranscriptCache.get UnreachableRedis.get f "abc12345678" (Some ["fr"]) 1)
    = None.
Proof. eexists. repeat split. Qed.

Example expired_read :
  get Sample.two_entries "old" 51 =
  (None, {| _cache := [("new", ("v2", 200))]; max_size := 3 |}).
Proof. reflexivity. Qed.

Example read_at_expiry_instant :
  fst (get Sample.two_entries "old" 50) = Some "v1".
Proof. reflexivity. Qed.

End Examples.

(** ** Instances of the theorems *)

Lemma wf_two_entries : OrderedDict.wf (MemoryCacheBackend._cache Sample.two_entries).
Proof.
  unfold OrderedDict.wf. cbn.
  repeat constructor; cbn; intuition discriminate.
Defined.

Lemma wf_two_cached : OrderedDict.wf (MemoryCacheBackend._cache Sample.two_cached).
Proof.
  unfold OrderedDict.wf. cbn.
  repeat constructor; cbn; intuition discriminate.
Defined.

Lemma memory_backend_size_bounded_witness :
  1 <= 2 /\
  exists self,
    MemoryCacheBackend.run (MemoryCacheBackend.init 2)
      [MemoryCacheBackend.OpSet "a" 1%nat 60 0;
       MemoryCacheBackend.OpSet "b" 2%nat 60 1;
       MemoryCacheBackend.OpGet "a" 2;
       MemoryCacheBackend.OpSet "c" 3%nat 60 3;
       MemoryCacheBackend.OpDelete "b";
       MemoryCacheBackend.OpSet "d" 4%nat 60 4] = Ok self /\
    MemoryCacheBackend.size self <= 2.
Proof.
  split; [lia|].
  apply (@memory_backend_size_bounded nat 2); lia.
Defined.

Lemma lru_recency_scenario_witness :
  exists s3 s4 s5,
    MemoryCacheBackend.run (MemoryCacheBackend.init 3)
      [MemoryCacheBackend.OpSet "A" 1%nat 60 0;
       MemoryCacheBackend.OpSet "B" 2%nat 60 1;
       MemoryCacheBackend.OpSet "C" 3%nat 60 2] = Ok s3 /\
    MemoryCacheBackend.get s3 "A" 3 = (Some 1%nat, s4) /\
    MemoryCacheBackend.set s4 "D" 4%nat 60 4 = Ok s5 /\
    MemoryCacheBackend._cache s5 =
      [("C", (3%nat, 2 + 60)); ("A", (1%nat, 0 + 60)); ("D", (4%nat, 4 + 60))] /\
    fst (MemoryCacheBackend.get s5 "B" 5) = None /\
    fst (MemoryCacheBackend.get s5 "A" 5) = Some 1%nat /\
    fst (MemoryCacheBackend.get s5 "C" 5) = Some 3%nat /\
    fst (MemoryCacheBackend.get s5 "D" 5) = Some 4%nat.
Proof.
  apply (@lru_recency_scenario nat "A" "B" "C" "D" 1%nat 2%nat 3%nat 4%nat
           60 60 60 60 0 1 2 3 4 5); try discriminate; lia.
Defined.

Lemma get_after_set_returns_value_witness :
  0 < 60 /\ 10 <= 10 /\ 10 <= 10 + 60 /\
  (forall self',
      MemoryCacheBackend.set Sample.two_entries "k" "v" 60 10 = Ok self' ->
      fst (MemoryCacheBackend.get self' "k" 10) = Some "v") /\
  (1 <= MemoryCacheBackend.max_size Sample.two_entries ->
   exists self', MemoryCacheBackend.set Sample.two_entries "k" "v" 60 10 = Ok self').
Proof.
  repeat (split; [lia|]).
  apply (@get_after_set_returns_value string Sample.two_entries "k" "v" 60 10 10); lia.
Defined.

Lemma get_expired_removes_entry_witness :
  50 < 51 /\
  fst (MemoryCacheBackend.get Sample.two_entries "old" 51) = None /\
  MemoryCacheBackend.size (snd (MemoryCacheBackend.get Sample.two_entries "old" 51))
  = MemoryCacheBackend.size Sample.two_entries - 1.
Proof.
  split; [lia|].
  pose proof (@get_expired_removes_entry string Sample.two_entries "old" "v1" 50 51
                wf_two_entries eq_refl ltac:(lia)) as H.
  split; [apply H | apply H].
Defined.

Lemma get_hit_changes_only_recency_witness :
  50 <= 50 /\
  fst (MemoryCacheBackend.get Sample.two_entries "old" 50) = Some "v1" /\
  MemoryCacheBackend._cache (snd (MemoryCacheBackend.get Sample.two_entries "old" 50))
  = OrderedDict.del (MemoryCacheBackend._cache Sample.two_entries) "old"
      ++ [("old", ("v1", 50))].
Proof.
  split; [lia|].
  pose proof (@get_hit_changes_only_recency string Sample.two_entries "old" "v1" 50 50
                wf_two_entries eq_refl ltac:(lia)) as H.
  split; [apply H | apply H].
Defined.

Lemma disabled_facade_is_inert_witness :
  CACHE_ENABLED Sample.disabled = false /\
  exists outs,
    TranscriptCache.run UnreachableRedis.get UnreachableRedis.set
      (Sample.new Sample.disabled)
      [TranscriptCache.OpSet "abc12345678" Sample.hi (Some ["en"]) 0;
       TranscriptCache.OpGet "abc12345678" (Some ["en"]) 1;
       TranscriptCache.OpSetMetadata "abc12345678" [("title", "a")] 2;
       TranscriptCache.OpGetMetadata "abc12345678" 3]
    = Ok (outs, Sample.new Sample.disabled) /\
    Forall (fun o => o = None) outs /\
    TranscriptCache.trace (Sample.new Sample.disabled) = [] /\
    TranscriptCache.size UnreachableRedis.size (Sample.new Sample.disabled)
    = (0, Sample.new Sample.disabled).
Proof.
  split; [reflexivity|].
  apply (@disabled_facade_is_inert Z (list (string * string)) unit
           UnreachableRedis.init UnreachableRedis.get UnreachableRedis.set
           UnreachableRedis.size Sample.disabled).
  reflexivity.
Defined.


Lemma cleanup_expired_removes_expired_witness :
  fst (TranscriptCache.cleanup_expired Sample.with_two_cached (fun _ => 100)) = 1 /\
  TranscriptCache._backend
    (snd (TranscriptCache.cleanup_expired Sample.with_two_cached (fun _ => 100)))
  = Some (TranscriptCache.Memory
            {| MemoryCacheBackend._cache :=
                 [("metadata:new",
                   (TranscriptCache.CachedMetadata [("title", "b")], 200))];
               MemoryCacheBackend.max_size := 3 |}).
Proof.
  pose proof (proj1 (cleanup_expired_removes_expired
                       Sample.with_two_cached (fun _ => 100))
                Sample.two_cached eq_refl eq_refl wf_two_cached) as H.
  cbn zeta in H. split; [exact (proj1 H) | exact (proj1 (proj2 H))].
Defined.

(** C10, the claim as first stated: the scan reads the clock once per
    binding, so a binding that is not yet expired when it is examined can be
    expired by the time the scan ends.  Here the first binding expires at
    instant 10 and is examined at 10 (kept); the second is examined at 11 and
    removed; at 11 the binding left is expired. *)
Lemma cleanup_expired_leaves_entry_expired_during_scan :
  fst (TranscriptCache.cleanup_expired SlowScan.cache SlowScan.clock) = 1 /\
  TranscriptCache._backend
    (snd (TranscriptCache.cleanup_expired SlowScan.cache SlowScan.clock))
  = Some (TranscriptCache.Memory
            {| MemoryCacheBackend._cache := [SlowScan.first];
               MemoryCacheBackend.max_size := 3 |}) /\
  TranscriptCache.expired_at (SlowScan.clock 1) SlowScan.first = true /\
  ~ Forall (fun kv => TranscriptCache.expired_at (SlowScan.clock 1) kv = false)
      [SlowScan.first].
Proof.
  repeat split. intros H. inversion H as [|? ? Hfirst _]. discriminate Hfirst.
Defined.

(** * Further properties of the code *)

(** ** The bounded-LRU backend: reads, writes and eviction order *)

Section MemoryMore.
Context {Value : Type}.
Import MemoryCacheBackend.
Implicit Types (self : MemoryCacheBackend.t Value) (key : string)
  (d : OrderedDict.t (entry (Value := Value))).

Lemma NoDup_app_disjoint (A : Type) (l1 l2 : list A) (x : A) :
  NoDup (l1 ++ l2) -> In x l1 -> In x l2 -> False.
Proof.
  induction l1 as [|a r IH]; cbn; [tauto|].
  intros H Hin1 Hin2. inversion H as [|? ? Hnin Hr]; subst.
  destruct Hin1 as [->|Hin1]; [|now apply IH].
  apply Hnin, in_or_app. now right.
Qed.

Lemma lookup_Some_keys d key e :
  OrderedDict.lookup d key = Some e -> In key (OrderedDict.keys d).
Proof.
  intros H. apply lookup_Some_In in H.
  unfold OrderedDict.keys. apply in_map_iff. now exists (key, e).
Qed.

Lemma lookup_skipn_wf d key n :
  OrderedDict.wf d ->
  OrderedDict.lookup (skipn n d) key = None \/
  OrderedDict.lookup (skipn n d) key = OrderedDict.lookup d key.
Proof.
  intros Hwf.
  destruct (OrderedDict.lookup (skipn n d) key) as [e|] eqn:E; [right | now left].
  rewrite <- (firstn_skipn n d) at 1. rewrite lookup_app.
  destruct (OrderedDict.lookup (firstn n d) key) as [e'|] eqn:E'; [|now rewrite E].
  exfalso. unfold OrderedDict.wf in Hwf.
  rewrite <- (firstn_skipn n d), keys_app in Hwf.
  eapply NoDup_app_disjoint; eauto using lookup_Some_keys.
Qed.

(** The dictionary after a [get]. *)
Lemma get_cache_cases self key now :
  _cache (snd (get self key now)) = _cache self \/
  _cache (snd (get self key now)) = OrderedDict.del (_cache self) key \/
  exists e, OrderedDict.lookup (_cache self) key = Some e /\
            _cache (snd (get self key now)) = OrderedDict.del (_cache self) key ++ [(key, e)].
Proof.
  destruct (OrderedDict.lookup (_cache self) key) as [[v e]|] eqn:E.
  - destruct (Z.le_gt_cases now e) as [Hfresh|Hexp].
    + rewrite (get_hit _ _ E Hfresh). right. right. exists (v, e). auto.
    + rewrite (get_expired _ _ E Hexp). right. left. reflexivity.
  - rewrite (get_miss _ _ now E). now left.
Qed.

Lemma get_lookup_other self key k now :
  k <> key ->
  OrderedDict.lookup (_cache (snd (get self key now))) k =
  OrderedDict.lookup (_cache self) k.
Proof.
  intros Hne.
  destruct (get_cache_cases self key now) as [-> | [-> | [e [He ->]]]].
  - reflexivity.
  - now apply lookup_del_other.
  - rewrite lookup_app, lookup_del_other by assumption.
    destruct (OrderedDict.lookup (_cache self) k); [reflexivity|].
    cbn. destruct (String.eqb_spec key k); congruence.
Qed.

Lemma get_lookup_same self key now :
  OrderedDict.lookup (_cache (snd (get self key now))) key = None \/
  OrderedDict.lookup (_cache (snd (get self key now))) key =
  OrderedDict.lookup (_cache self) key.
Proof.
  destruct (get_cache_cases self key now) as [-> | [-> | [e [He ->]]]].
  - now right.
  - left. apply lookup_del_same.
  - right. rewrite lookup_app, lookup_del_same. cbn.
    now rewrite String.eqb_refl.
Qed.

Lemma get_wf self key now :
  OrderedDict.wf (_cache self) -> OrderedDict.wf (_cache (snd (get self key now))).
Proof.
  intros Hwf.
  destruct (get_cache_cases self key now) as [-> | [-> | [e [He ->]]]].
  - assumption.
  - now apply wf_del.
  - apply wf_snoc; [now apply wf_del | apply lookup_del_same].
Qed.

Lemma get_returns_bound self key now v :
  fst (get self key now) = Some v ->
  exists expiry, OrderedDict.lookup (_cache self) key = Some (v, expiry) /\ now <= expiry.
Proof.
  destruct (OrderedDict.lookup (_cache self) key) as [[v' e]|] eqn:E.
  - destruct (Z.le_gt_cases now e) as [Hfresh|Hexp].
    + rewrite (get_hit _ _ E Hfresh). cbn. intros [= ->]. eauto.
    + rewrite (get_expired _ _ E Hexp). discriminate.
  - rewrite (get_miss _ _ now E). discriminate.
Qed.

Lemma delete_cache self key :
  _cache (delete self key) = OrderedDict.del (_cache self) key.
Proof.
  unfold delete. destruct (OrderedDict.contains (_cache self) key) eqn:C; cbn.
  - reflexivity.
  - symmetry. apply del_absent. unfold OrderedDict.contains in C.
    now destruct (OrderedDict.lookup (_cache self) key).
Qed.

(** One call keeps the keys distinct and leaves, for [key], either nothing or
    what the calls so far last wrote. *)
Lemma step_last_write self o self' key w :
  OrderedDict.wf (_cache self) ->
  (OrderedDict.lookup (_cache self) key = None \/
   OrderedDict.lookup (_cache self) key = w) ->
  step self o = Ok self' ->
  OrderedDict.wf (_cache self') /\
  (OrderedDict.lookup (_cache self') key = None \/
   OrderedDict.lookup (_cache self') key = History.write w key o).
Proof.
  intros Hwf Hinv. destruct o as [k now|k value ttl now|k|]; cbn [step History.write].
  - intros [= <-]. split; [now apply get_wf|].
    destruct (String.eqb_spec k key) as [->|Hne].
    + destruct (get_lookup_same self key now) as [-> | ->]; auto.
    + rewrite get_lookup_other by congruence. assumption.
  - intros H. destruct (set_preserves _ _ _ _ _ Hwf H) as [[Hwf' _] _].
    split; [assumption|].
    destruct (set_inv _ _ _ _ _ H) as [n [Hc _]]. rewrite Hc, lookup_app.
    destruct (String.eqb_spec k key) as [->|Hne].
    + rewrite lookup_skipn_None by apply lookup_del_same. cbn.
      rewrite String.eqb_refl. now right.
    + destruct (lookup_skipn_wf key n (wf_del k Hwf)) as [-> | ->].
      * cbn. destruct (String.eqb_spec k key); [congruence | now left].
      * rewrite lookup_del_other by congruence.
        destruct Hinv as [-> | ->].
        -- cbn. destruct (String.eqb_spec k key); [congruence | now left].
        -- destruct w; [now right|]. cbn.
           destruct (String.eqb_spec k key); [congruence | now left].
  - intros [= <-]. rewrite delete_cache. split; [now apply wf_del|].
    destruct (String.eqb_spec k key) as [->|Hne].
    + left. apply lookup_del_same.
    + rewrite lookup_del_other by congruence. assumption.
  - intros [= <-]. cbn. split; [constructor | now left].
Qed.

Lemma run_last_write ops : forall self self' key w,
  OrderedDict.wf (_cache self) ->
  (OrderedDict.lookup (_cache self) key = None \/
   OrderedDict.lookup (_cache self) key = w) ->
  run self ops = Ok self' ->
  OrderedDict.wf (_cache self') /\
  (OrderedDict.lookup (_cache self') key = None \/
   OrderedDict.lookup (_cache self') key = History.last_write w key ops).
Proof.
  induction ops as [|o rest IH]; intros self self' key w Hwf Hinv; cbn [run History.last_write].
  - intros [= <-]. auto.
  - destruct (step self o) as [s1|e] eqn:Hs; cbn [bind]; [|discriminate].
    edestruct step_last_write as [Hwf1 Hinv1]; [exact Hwf | exact Hinv | exact Hs |].
    now apply IH.
Qed.

(** X1.  A read never returns a stale or expired value: whatever calls were
    made on a fresh backend, if [get(key)] at instant [now] returns a value,
    then that value is the one the most recent [set] of that key stored (no
    [delete] of the key and no [clear] came after it) and [now] is not past
    the expiry that [set] computed. *)
Theorem get_returns_latest_unexpired_write (ms : Z) (ops : list (op Value))
    self key now value :
  run (init ms) ops = Ok self ->
  fst (get self key now) = Some value ->
  exists expiry,
    History.last_write None key ops = Some (value, expiry) /\ now <= expiry.
Proof.
  intros Hrun Hget.
  destruct (get_returns_bound _ _ _ Hget) as [expiry [Hl Hfresh]].
  exists expiry. split; [|assumption].
  assert (OrderedDict.wf (_cache (init (Value := Value) ms))) as Hwf by apply NoDup_nil.
  assert (OrderedDict.lookup (_cache (init (Value := Value) ms)) key = None \/
          OrderedDict.lookup (_cache (init (Value := Value) ms)) key = None) as Hinv
    by now left.
  destruct (@run_last_write ops (init ms) self key None Hwf Hinv Hrun) as [_ [Hn|Hw]];
    [rewrite Hl in Hn; discriminate | rewrite Hl in Hw; now symmetry].
Qed.


Lemma get_fst_lookup self key now :
  fst (get self key now) =
  match OrderedDict.lookup (_cache self) key with
  | Some (v, e) => if now >? e then None else Some v
  | None => None
  end.
Proof.
  unfold get. destruct (OrderedDict.lookup (_cache self) key) as [[v e]|]; [|reflexivity].
  destruct (now >? e); [reflexivity|].
  now destruct (OrderedDict.move_to_end (_cache self) key).
Qed.

(** X2.  A read of one key, whether it hits, misses or finds the entry
    expired, does not change what a read of any other key returns. *)
Theorem get_leaves_other_keys_readable self key k now now' :
  k <> key ->
  fst (get (snd (get self key now)) k now') = fst (get self k now').
Proof.
  intros Hne. now rewrite !get_fst_lookup, get_lookup_other.
Qed.

(** X3.  [delete(key)] removes the binding of [key] and nothing else: the
    other bindings keep their order, a later [get(key)] misses and changes
    nothing, reads of other keys return what they returned before, deleting
    an absent key leaves the backend as it was, and deleting a present key
    lowers [size()] by one. *)
Theorem delete_removes_exactly_key self key :
  _cache (delete self key) = OrderedDict.del (_cache self) key /\
  (forall now, get (delete self key) key now = (None, delete self key)) /\
  (forall k now, k <> key ->
                 fst (get (delete self key) k now) = fst (get self k now)) /\
  (OrderedDict.lookup (_cache self) key = None -> delete self key = self) /\
  (forall e, OrderedDict.wf (_cache self) ->
             OrderedDict.lookup (_cache self) key = Some e ->
             size (delete self key) = size self - 1).
Proof.
  split; [apply delete_cache|]. split; [|split; [|split]].
  - intros now. apply get_miss. rewrite delete_cache. apply lookup_del_same.
  - intros k now Hne. rewrite !get_fst_lookup, delete_cache.
    now rewrite lookup_del_other.
  - intros Hnone. unfold delete, OrderedDict.contains. now rewrite Hnone.
  - intros e Hwf Hl. unfold size. rewrite delete_cache.
    pose proof (length_del_present _ Hwf Hl). lia.
Qed.

(** X4.  On a backend within its capacity (at least one), [set] evicts at
    most one entry and only when it must: overwriting a key that is present
    evicts nothing (the key moves to the most-recent end); a new key below
    capacity is appended; a new key at capacity drops exactly the oldest
    binding. *)
Theorem set_evicts_only_when_full self key value ttl now :
  1 <= max_size self ->
  bounded self ->
  let new := (key, (value, now + ttl)) in
  (forall e, OrderedDict.lookup (_cache self) key = Some e ->
             set self key value ttl now =
             Ok {| _cache := OrderedDict.del (_cache self) key ++ [new];
                   max_size := max_size self |}) /\
  (OrderedDict.lookup (_cache self) key = None ->
   size self < max_size self ->
   set self key value ttl now =
   Ok {| _cache := _cache self ++ [new]; max_size := max_size self |}) /\
  (OrderedDict.lookup (_cache self) key = None ->
   size self = max_size self ->
   set self key value ttl now =
   Ok {| _cache := tl (_cache self) ++ [new]; max_size := max_size self |}).
Proof.
  intros Hms [Hwf Hsz] new. unfold size in *. rewrite (set_ok _ _ _ _ _ Hms).
  unfold evicted. repeat split.
  - intros e Hl. pose proof (length_del_present _ Hwf Hl).
    replace (Z.to_nat _) with 0%nat by lia. reflexivity.
  - intros Hnone Hlt. rewrite (del_absent _ _ Hnone).
    replace (Z.to_nat _) with 0%nat by lia. reflexivity.
  - intros Hnone Hfull. rewrite (del_absent _ _ Hnone).
    replace (Z.to_nat _) with 1%nat by lia.
    now destruct (_cache self).
Qed.

Lemma run_stores (es : list (string * Value * Z * Z)) : forall (ms : Z) d,
  1 <= ms ->
  OrderedDict.wf (d ++ map History.binding es) ->
  Z.of_nat (List.length d) <= ms ->
  run {| _cache := d; max_size := ms |} (map History.store es) =
  Ok {| _cache := skipn (List.length (d ++ map History.binding es) - Z.to_nat ms)
                    (d ++ map History.binding es);
        max_size := ms |}.
Proof.
  induction es as [|[[[k v] ttl] now] rest IH]; intros ms d Hms Hwf Hlen.
  - cbn. rewrite app_nil_r. replace (_ - _)%nat with 0%nat by lia. reflexivity.
  - cbn [map History.store History.binding run step].
    rewrite set_ok by assumption. cbn [bind _cache max_size].
    assert (OrderedDict.lookup d k = None) as Hfresh.
    { apply lookup_None_keys. intros Hin. unfold OrderedDict.wf in Hwf.
      rewrite keys_app in Hwf. eapply NoDup_app_disjoint; [exact Hwf | exact Hin |].
      cbn. now left. }
    rewrite (del_absent _ _ Hfresh).
    set (b := (k, (v, now + ttl))). set (n := evicted ms (List.length d)).
    assert (n <= List.length d)%nat as Hn by (unfold n, evicted; lia).
    assert (skipn n d ++ [b] ++ map History.binding rest
            = skipn n (d ++ b :: map History.binding rest)) as Hsk.
    { rewrite skipn_app. replace (n - List.length d)%nat with 0%nat by lia.
      reflexivity. }
    rewrite IH; try assumption.
    + rewrite <- app_assoc. unfold entry in *. rewrite Hsk, skipn_skipn, length_skipn.
      match goal with
      | |- Ok {| _cache := skipn ?a _; max_size := _ |} =
           Ok {| _cache := skipn ?c _; max_size := _ |} =>
          replace a with c; [reflexivity|]
      end.
      rewrite !length_app in *. cbn [List.length] in *.
      unfold n, evicted in *. lia.
    + rewrite <- app_assoc. unfold entry in *. rewrite Hsk. now apply wf_skipn.
    + rewrite length_app, length_skipn. cbn. unfold n, evicted. lia.
Qed.

(** X5.  Storing pairwise distinct keys one after the other into a fresh
    backend of capacity [ms >= 1] leaves exactly the last [ms] of them (all
    of them when there are fewer), in insertion order, each with the value
    and expiry it was stored with. *)
Theorem lru_keeps_most_recent_writes (ms : Z) (es : list (string * Value * Z * Z)) :
  1 <= ms ->
  OrderedDict.wf (map History.binding es) ->
  run (init ms) (map History.store es) =
  Ok {| _cache := skipn (List.length es - Z.to_nat ms) (map History.binding es);
        max_size := ms |}.
Proof.
  intros Hms Hwf. unfold init.
  rewrite (@run_stores es ms [] Hms Hwf) by (cbn; lia).
  cbn [app]. now rewrite length_map.
Qed.

End MemoryMore.

(** ** Cache keys *)

Section KeyMore.

Lemma append_colon_split (v : string) : forall v' r r',
  ~ In ":"%char (list_ascii_of_string v) ->
  ~ In ":"%char (list_ascii_of_string v') ->
  (v ++ String ":" r)%string = (v' ++ String ":" r')%string ->
  v = v' /\ r = r'.
Proof.
  induction v as [|a v IH]; intros [|a' v'] r r' Hv Hv'; cbn in *.
  - intros [= ->]. auto.
  - intros [= <- _]. tauto.
  - intros [= -> _]. tauto.
  - intros [= -> H]. destruct (IH v' r r') as [-> ->]; auto.
Qed.

(** X6.  Cache keys of the two namespaces never coincide: no transcript key
    equals a metadata key.  Metadata keys of different videos differ.  For
    video ids that contain no colon, equal transcript keys mean the same
    video and the same canonical language string. *)
Theorem cache_keys_do_not_collide (video_id video_id' : string)
    (languages languages' : option (list string)) :
  TranscriptCache._make_transcript_key video_id languages <>
  TranscriptCache._make_metadata_key video_id' /\
  (TranscriptCache._make_metadata_key video_id =
   TranscriptCache._make_metadata_key video_id' -> video_id = video_id') /\
  (~ In ":"%char (list_ascii_of_string video_id) ->
   ~ In ":"%char (list_ascii_of_string video_id') ->
   TranscriptCache._make_transcript_key video_id languages =
   TranscriptCache._make_transcript_key video_id' languages' ->
   video_id = video_id' /\
   forall v, TranscriptCache._make_transcript_key v languages =
             TranscriptCache._make_transcript_key v languages').
Proof.
  unfold TranscriptCache._make_transcript_key, TranscriptCache._make_metadata_key.
  split; [cbn; discriminate|]. split; [cbn; now intros [= ->]|].
  intros Hv Hv' Heq. cbn in Heq. injection Heq as Heq.
  apply append_colon_split in Heq; [|assumption..].
  destruct Heq as [-> Hl]. split; [reflexivity|].
  intros v. now rewrite Hl.
Qed.

End KeyMore.

(** ** The facade: round trips and cleanup *)

Section FacadeMore.
Context {Float Metadata Redis : Type}.
Import TranscriptCache.

Local Abbreviation cached := (TranscriptCache.cached (Float := Float) (Metadata := Metadata)).
Local Abbreviation facade := (TranscriptCache.t (Float := Float) (Metadata := Metadata) (Redis := Redis)).
Local Abbreviation dict := (OrderedDict.t (MemoryCacheBackend.entry (Value := cached))).

Variable redis_init : string -> result Redis.
Variable redis_get : Redis -> string -> option cached * Redis.
Variable redis_set : Redis -> string -> cached -> Z -> Redis.
Variable redis_clear : Redis -> Redis.
Variable redis_size : Redis -> Z * Redis.

(** A write at [now] followed by a read of the same key at [now'], on the
    memory backend. *)
Lemma memory_set_get (m : MemoryCacheBackend.t cached) key (value : cached) ttl now now' :
  1 <= MemoryCacheBackend.max_size m ->
  now' <= now + ttl ->
  exists m',
    MemoryCacheBackend.set m key value ttl now = Ok m' /\
    fst (MemoryCacheBackend.get m' key now') = Some value.
Proof.
  intros Hms Hfresh. eexists. split; [now apply set_ok|].
  erewrite get_hit; [reflexivity | | exact Hfresh].
  cbn. rewrite lookup_app, lookup_skipn_None by apply lookup_del_same.
  cbn. now rewrite String.eqb_refl.
Qed.

(** X7.  Round trip through the facade on the memory backend with capacity
    at least one: a transcript stored for a video and a language list is
    returned, converted to the stored dictionary form, by a read for the same
    video under any reordering of those languages made no later than the
    configured TTL after the write; stored metadata is returned likewise. *)
Theorem facade_store_then_fetch (self : facade) (m : MemoryCacheBackend.t cached)
    (video_id : string) (transcript : list snippet) (metadata : Metadata)
    (languages languages' : list string) (now now' : Z) :
  enabled self = true ->
  _backend self = Some (Memory m) ->
  1 <= MemoryCacheBackend.max_size m ->
  Permutation languages languages' ->
  now' <= now + ttl_seconds self ->
  (exists self',
      set redis_set self video_id transcript (Some languages) now = Ok self' /\
      fst (get redis_get self' video_id (Some languages') now')
      = Some (CachedTranscript (map to_dict transcript))) /\
  (exists self',
      set_metadata redis_set self video_id metadata now = Ok self' /\
      fst (get_metadata redis_get self' video_id now') = Some (CachedMetadata metadata)).
Proof.
  intros Hon Hb Hms Hperm Hfresh.
  assert (_make_transcript_key video_id (Some languages') =
          _make_transcript_key video_id (Some languages)) as Hkey.
  { unfold _make_transcript_key.
    destruct languages as [|a r], languages' as [|a' r']; try reflexivity.
    - apply Permutation_nil in Hperm. discriminate.
    - apply Permutation_sym, Permutation_nil in Hperm. discriminate.
    - now rewrite (sorted_Permutation Hperm). }
  split.
  - destruct (@memory_set_get m (_make_transcript_key video_id (Some languages))
                (CachedTranscript (map to_dict transcript)) (ttl_seconds self)
                now now' Hms Hfresh) as [m' [Hset Hget]].
    unfold set, get. rewrite Hon, Hb. cbn [backend_set]. rewrite Hset. cbn [bind].
    eexists. split; [reflexivity|]. cbn [enabled _backend with_backend backend_get].
    rewrite Hon, Hkey.
    destruct (MemoryCacheBackend.get m' _ now') as [v m'']. cbn in *. assumption.
  - destruct (@memory_set_get m (_make_metadata_key video_id)
                (CachedMetadata metadata) (ttl_seconds self)
                now now' Hms Hfresh) as [m' [Hset Hget]].
    unfold set_metadata, get_metadata. rewrite Hon, Hb. cbn [backend_set].
    rewrite Hset. cbn [bind].
    eexists. split; [reflexivity|]. cbn [enabled _backend with_backend backend_get].
    rewrite Hon.
    destruct (MemoryCacheBackend.get m' _ now') as [v m'']. cbn in *. assumption.
Qed.

Lemma lookup_filter_fresh (now : Z) (d : dict) key :
  OrderedDict.wf d ->
  OrderedDict.lookup (filter (fun kv => negb (expired_at now kv)) d) key =
  match OrderedDict.lookup d key with
  | Some (v, e) => if now >? e then None else Some (v, e)
  | None => None
  end.
Proof.
  induction d as [|[k [v e]] r IH]; intros Hwf; [reflexivity|].
  pose proof (wf_tail Hwf) as Hwf'. cbn [filter OrderedDict.lookup].
  change (expired_at now (k, (v, e))) with (now >? e).
  destruct (String.eqb_spec k key) as [->|Hne].
  - destruct (now >? e); cbn [negb OrderedDict.lookup].
    + rewrite IH by assumption.
      replace (OrderedDict.lookup r key) with (@None (cached * Z)); [reflexivity|].
      symmetry. apply lookup_None_keys. unfold OrderedDict.wf in Hwf. cbn in Hwf.
      now inversion Hwf.
    + now rewrite String.eqb_refl.
  - destruct (now >? e); cbn [negb OrderedDict.lookup].
    + now apply IH.
    + destruct (String.eqb_spec k key); [congruence | now apply IH].
Qed.

Lemma wf_filter (f : string * (cached * Z) -> bool) (d : dict) :
  OrderedDict.wf d -> OrderedDict.wf (filter f d).
Proof.
  unfold OrderedDict.wf. induction d as [|kv r IH]; cbn; [auto|].
  intros H. inversion H as [|? ? Hnin Hr]; subst.
  destruct (f kv); cbn; [|now apply IH].
  constructor; [|now apply IH].
  intros Hin. apply Hnin. unfold OrderedDict.keys in *.
  rewrite in_map_iff in *. destruct Hin as [x [Hx Hin]].
  apply filter_In in Hin. exists x. tauto.
Qed.

(** [cleanup_expired] when the whole scan reads the instant [now]. *)
Lemma cleanup_at_instant (self : facade) (m : MemoryCacheBackend.t cached) (now : Z) :
  enabled self = true ->
  _backend self = Some (Memory m) ->
  OrderedDict.wf (MemoryCacheBackend._cache m) ->
  cleanup_expired self (fun _ => now) =
  (Z.of_nat (List.length (filter (expired_at now) (MemoryCacheBackend._cache m))),
   with_memory_cache self m
     (filter (fun kv => negb (expired_at now kv)) (MemoryCacheBackend._cache m))).
Proof.
  intros Hon Hb Hwf. unfold cleanup_expired. rewrite Hon, Hb.
  pose proof (cleanup_scan_spec (fun _ => now) (MemoryCacheBackend._cache m) [] 0 0 Hwf)
    as Hscan.
  cbn [app] in Hscan. rewrite Hscan.
  destruct (@kept_at_instant Float Metadata (fun _ => now) now
              (MemoryCacheBackend._cache m) (fun _ => eq_refl) 0%nat) as [-> ->].
  reflexivity.
Qed.

Lemma filter_filter_neg (A : Type) (f : A -> bool) (l : list A) :
  filter f (filter (fun x => negb (f x)) l) = [] /\
  filter (fun x => negb (f x)) (filter (fun x => negb (f x)) l)
  = filter (fun x => negb (f x)) l.
Proof.
  induction l as [|a r [IH1 IH2]]; [split; reflexivity|].
  cbn. destruct (f a) eqn:E; cbn; rewrite ?E; cbn; rewrite ?IH1, ?IH2; auto.
Qed.

(** X8.  [cleanup_expired] does not change what the cache answers: when
    the scan and the reads take place at one instant, every transcript or
    metadata read returns after the cleanup what it would have returned
    before it.  The size drops by exactly the returned count, which lies
    between 0 and the old size, and a second cleanup at that instant removes
    nothing. *)
Theorem cleanup_expired_is_transparent (self : facade) (m : MemoryCacheBackend.t cached)
    (now : Z) :
  enabled self = true ->
  _backend self = Some (Memory m) ->
  OrderedDict.wf (MemoryCacheBackend._cache m) ->
  let removed := fst (cleanup_expired self (fun _ => now)) in
  let self' := snd (cleanup_expired self (fun _ => now)) in
  (forall video_id languages,
      fst (get redis_get self' video_id languages now)
      = fst (get redis_get self video_id languages now)) /\
  (forall video_id,
      fst (get_metadata redis_get self' video_id now)
      = fst (get_metadata redis_get self video_id now)) /\
  fst (size redis_size self') = fst (size redis_size self) - removed /\
  0 <= removed <= fst (size redis_size self) /\
  cleanup_expired self' (fun _ => now) = (0, self').
Proof.
  intros Hon Hb Hwf removed self'. subst removed self'.
  rewrite (@cleanup_at_instant self m now Hon Hb Hwf). cbn [fst snd].
  set (d := MemoryCacheBackend._cache m).
  assert (forall key,
             fst (MemoryCacheBackend.get
                    {| MemoryCacheBackend._cache :=
                         filter (fun kv => negb (expired_at now kv)) d;
                       MemoryCacheBackend.max_size := MemoryCacheBackend.max_size m |}
                    key now)
             = fst (MemoryCacheBackend.get m key now)) as Hread.
  { intros key. rewrite !get_fst_lookup. cbn [MemoryCacheBackend._cache].
    rewrite lookup_filter_fresh by assumption. fold d.
    destruct (OrderedDict.lookup d key) as [[v e]|]; [|reflexivity].
    destruct (now >? e) eqn:E; [reflexivity | now rewrite E]. }
  assert (forall key,
             fst (backend_get redis_get
                    (Memory {| MemoryCacheBackend._cache :=
                                 filter (fun kv => negb (expired_at now kv)) d;
                               MemoryCacheBackend.max_size :=
                                 MemoryCacheBackend.max_size m |}) key now)
             = fst (backend_get redis_get (Memory m) key now)) as Hread'.
  { intros key. specialize (Hread key). cbn [backend_get].
    destruct (MemoryCacheBackend.get _ key now) as [v1 m1].
    destruct (MemoryCacheBackend.get m key now) as [v2 m2]. exact Hread. }
  pose proof (filter_length (expired_at now) d) as Hlen.
  repeat split.
  - intros video_id languages. unfold get, with_memory_cache.
    cbn [enabled _backend]. rewrite Hon, Hb.
    specialize (Hread' (_make_transcript_key video_id languages)).
    destruct (backend_get redis_get (Memory _) _ now) as [v1 b1].
    destruct (backend_get redis_get (Memory m) _ now) as [v2 b2]. exact Hread'.
  - intros video_id. unfold get_metadata, with_memory_cache.
    cbn [enabled _backend]. rewrite Hon, Hb.
    specialize (Hread' (_make_metadata_key video_id)).
    destruct (backend_get redis_get (Memory _) _ now) as [v1 b1].
    destruct (backend_get redis_get (Memory m) _ now) as [v2 b2]. exact Hread'.
  - unfold size, with_memory_cache. cbn [_backend]. rewrite Hb. cbn [fst].
    unfold MemoryCacheBackend.size. cbn [MemoryCacheBackend._cache]. fold d. lia.
  - lia.
  - unfold size. rewrite Hb. cbn [fst]. unfold MemoryCacheBackend.size. fold d. lia.
  - erewrite cleanup_at_instant; [| exact Hon | reflexivity | now apply wf_filter].
    cbn [MemoryCacheBackend._cache MemoryCacheBackend.max_size].
    destruct (filter_filter_neg (expired_at now) d) as [-> ->]. reflexivity.
Qed.

End FacadeMore.

(** ** The callers: proxy configuration, translation, rendering *)

Section ProxyFacts.
Import YouTubeTools.

Lemma truthy_nonempty (s : string) : truthy s = true <-> s <> "".
Proof.
  unfold truthy. destruct (String.eqb_spec s ""); cbn; split; congruence.
Qed.

Lemma or_else_nonempty (a b : string) :
  truthy a || truthy b = true -> or_else a b <> "".
Proof.
  unfold or_else. destruct (truthy a) eqn:Ea; cbn.
  - intros _. now apply truthy_nonempty.
  - intros Hb. now apply truthy_nonempty.
Qed.

(** X9.  The proxy configuration handed to the caption client is never
    half-filled: a generic configuration is built only for proxy type
    "generic" and both of its URLs are non-empty; a Webshare configuration is
    built only for type "webshare" and carries the configured, non-empty
    user name and password.  A non-empty [PROXY_URL] wins over the separate
    HTTP/HTTPS settings, and any other proxy type gives no proxy. *)
Theorem proxy_config_is_complete (settings : ProxySettings) :
  (forall cfg,
      _get_youtube_api settings = Some cfg ->
      match cfg with
      | GenericProxyConfig http_url https_url =>
          PROXY_TYPE settings = "generic" /\ http_url <> "" /\ https_url <> ""
      | WebshareProxyConfig user password =>
          PROXY_TYPE settings = "webshare" /\
          user = WEBSHARE_USERNAME settings /\
          password = WEBSHARE_PASSWORD settings /\
          user <> "" /\ password <> ""
      end) /\
  (PROXY_TYPE settings = "generic" ->
   PROXY_URL settings <> "" ->
   _get_youtube_api settings =
   Some (GenericProxyConfig (PROXY_URL settings) (PROXY_URL settings))) /\
  (PROXY_TYPE settings <> "generic" ->
   PROXY_TYPE settings <> "webshare" ->
   _get_youtube_api settings = None).
Proof.
  unfold _get_youtube_api. split; [|split].
  - intros cfg.
    destruct (String.eqb_spec (PROXY_TYPE settings) "generic") as [Hg|Hg]; cbn [andb].
    + destruct (truthy (PROXY_URL settings)) eqn:Eu.
      * intros [= <-]. apply truthy_nonempty in Eu. auto.
      * destruct (truthy (PROXY_HTTP settings) || truthy (PROXY_HTTPS settings)) eqn:Eh.
        -- intros [= <-]. repeat split; [assumption | |].
           ++ now apply or_else_nonempty.
           ++ apply or_else_nonempty. now rewrite orb_comm.
        -- rewrite Hg. cbn. discriminate.
    + destruct (String.eqb_spec (PROXY_TYPE settings) "webshare") as [Hw|Hw]; cbn [andb];
        [|discriminate].
      destruct (truthy (WEBSHARE_USERNAME settings)) eqn:Eu; cbn [andb]; [|discriminate].
      destruct (truthy (WEBSHARE_PASSWORD settings)) eqn:Ep; [|discriminate].
      intros [= <-]. apply truthy_nonempty in Eu, Ep. auto.
  - intros Hg Hu. apply truthy_nonempty in Hu.
    rewrite Hg, Hu. reflexivity.
  - intros Hg Hw. apply String.eqb_neq in Hg, Hw. now rewrite Hg, Hw.
Qed.

End ProxyFacts.

Section TranslationFacts.
Context {Float : Type}.
Import YouTubeTools.

Local Abbreviation snippet := (TranscriptCache.snippet (Float := Float)).

Variable api_list : string -> outcome (TranscriptList (Float := Float)).
Variable str : exception -> string.
Variable repr : list string -> string.

Lemma find_none_untranslatable (l : list (RemoteTranscript (Float := Float))) :
  (forall t, In t l -> is_translatable t = false) ->
  List.find is_translatable l = None.
Proof.
  induction l as [|t r IH]; cbn; [reflexivity|].
  intros H. rewrite (H t) by now left. apply IH. intros t' Hin. apply H. now right.
Qed.

(** X10.  [_fetch_with_translation] lets nothing but [HTTPException]
    escape, whatever the caption library raises.  When it returns a
    transcript, that is what translating a listed or preferred transcript
    returned, that transcript is translatable, and the target language is
    among its translation languages. *)
Theorem fetch_with_translation_outcome (video_id : string)
    (source_languages : option (list string)) (target_language : string) :
  match _fetch_with_translation api_list str repr video_id source_languages
          target_language with
  | Returns transcript =>
      exists transcript_list t,
        api_list video_id = Returns transcript_list /\
        ((exists l, source_languages = Some l /\
                    find_source transcript_list l = Some t) \/
         In t (transcripts transcript_list)) /\
        is_translatable t = true /\
        In target_language (translation_languages t) /\
        translate t target_language = Returns transcript
  | Raises (HTTPException _ _) => True
  | Raises _ => False
  end.
Proof.
  unfold _fetch_with_translation, _translate_transcript.
  destruct (api_list video_id) as [tl|e] eqn:El.
  2:{ destruct e; exact I. }
  set (preferred := match source_languages with
                    | Some l => find_source tl l
                    | None => None
                    end).
  assert (forall t, preferred = Some t ->
                    exists l, source_languages = Some l /\ find_source tl l = Some t)
    as Hpref.
  { unfold preferred. destruct source_languages as [l|]; [eauto | discriminate]. }
  set (chosen := match preferred with
                 | Some t => Some t
                 | None => List.find is_translatable (transcripts tl)
                 end).
  assert (forall t, chosen = Some t ->
                    (exists l, source_languages = Some l /\ find_source tl l = Some t)
                    \/ In t (transcripts tl)) as Hchosen.
  { unfold chosen. destruct preferred as [t0|] eqn:Ep.
    - intros t [= <-]. left. now apply Hpref.
    - intros t Hf. right. now apply find_some in Hf. }
  destruct chosen as [t|]; [|exact I].
  specialize (Hchosen t eq_refl).
  destruct (is_translatable t) eqn:Et; cbn [negb]; [|exact I].
  destruct (existsb (String.eqb target_language) (translation_languages t)) eqn:Ex;
    cbn [negb]; [|exact I].
  destruct (translate t target_language) as [tr|e] eqn:Etr.
  - exists tl, t. repeat split; try assumption.
    apply existsb_exists in Ex. destruct Ex as [x [Hin Hx]].
    apply String.eqb_eq in Hx. now subst x.
  - destruct e; exact I.
Qed.

(** X11.  Error mapping of [_fetch_with_translation]: a library error
    while listing becomes a 500 whose detail carries [str(e)]; a preferred
    source transcript that is found but not translatable gives a 400 at once,
    without trying any other transcript; with no preferred source and no
    translatable transcript the answer is 404; and a translatable transcript
    that does not offer the target language gives a 400 listing the first ten
    offered languages. *)
Theorem fetch_with_translation_errors (video_id : string) (target_language : string) :
  (forall message,
      api_list video_id = Raises (UpstreamError message) ->
      forall source_languages,
        _fetch_with_translation api_list str repr video_id source_languages
          target_language
        = Raises (HTTPException 500
                    ("Error translating captions: " ++ str (UpstreamError message)))) /\
  (forall transcript_list l t,
      api_list video_id = Returns transcript_list ->
      find_source transcript_list l = Some t ->
      is_translatable t = false ->
      _fetch_with_translation api_list str repr video_id (Some l) target_language
      = Raises (HTTPException 400
                  ("Captions in '" ++ language t ++ "' cannot be translated."))) /\
  (forall transcript_list,
      api_list video_id = Returns transcript_list ->
      (forall t, In t (transcripts transcript_list) -> is_translatable t = false) ->
      _fetch_with_translation api_list str repr video_id None target_language
      = Raises (HTTPException 404 "No translatable captions found for this video.")) /\
  (forall transcript_list t,
      api_list video_id = Returns transcript_list ->
      List.find is_translatable (transcripts transcript_list) = Some t ->
      ~ In target_language (translation_languages t) ->
      _fetch_with_translation api_list str repr video_id None target_language
      = Raises (HTTPException 400
                  ("Translation to '" ++ target_language
                   ++ "' not available. Available: "
                   ++ repr (firstn 10 (translation_languages t)) ++ "..."))).
Proof.
  unfold _fetch_with_translation, _translate_transcript. repeat split.
  - intros message El source_languages. now rewrite El.
  - intros tl l t El Hf Ht. now rewrite El, Hf, Ht.
  - intros tl El Hall. now rewrite El, (find_none_untranslatable _ Hall).
  - intros tl t El Hf Hnot. rewrite El, Hf.
    pose proof (find_some _ _ Hf) as [_ Ht]. rewrite Ht. cbn [negb].
    destruct (existsb (String.eqb target_language) (translation_languages t)) eqn:Ex;
      [|reflexivity].
    exfalso. apply Hnot. apply existsb_exists in Ex. destruct Ex as [x [Hin Hx]].
    apply String.eqb_eq in Hx. now subst x.
Qed.

End TranslationFacts.

Section RenderFacts.
Context {Float : Type}.
Import YouTubeTools.

Local Abbreviation snippet := (TranscriptCache.snippet (Float := Float)).
Variable int : Float -> Z.

Lemma text_of_to_dict (s : snippet) :
  text_of (TranscriptCache.SnippetDict (TranscriptCache.to_dict s)) = text_of s.
Proof. now destruct s. Qed.

Lemma start_of_to_dict (s : snippet) :
  start_of (TranscriptCache.SnippetDict (TranscriptCache.to_dict s)) = start_of s.
Proof. now destruct s. Qed.

(** X12.  Rendering does not depend on where the transcript came from: the
    captions text and the timestamp lines computed from the dictionaries the
    cache stores equal those computed from the freshly fetched snippets. *)
Theorem rendering_same_from_cache (transcript : list snippet) :
  let from_cache :=
    map TranscriptCache.SnippetDict (map TranscriptCache.to_dict transcript) in
  captions_text from_cache = captions_text transcript /\
  timestamps int from_cache = timestamps int transcript.
Proof.
  cbn zeta. split.
  - unfold captions_text. destruct transcript as [|s r]; [reflexivity|].
    cbn [map]. f_equal. rewrite !map_map. rewrite text_of_to_dict. f_equal.
    apply map_ext. intros a. apply text_of_to_dict.
  - unfold timestamps. rewrite !map_map. apply map_ext. intros s.
    unfold timestamp_line. now rewrite text_of_to_dict, start_of_to_dict.
Qed.

Lemma format_02d_width (k : Z) :
  0 <= k < 60 -> String.length (format_02d k) = 2%nat.
Proof.
  intros Hk. destruct k as [|p|p]; [reflexivity | | lia].
  do 6 (destruct p as [p|p|]; try lia; try reflexivity).
Qed.

(** X13.  Every timestamp line reads minutes, a colon, seconds, " - " and
    the snippet text, where seconds lies in 0..59 and is printed with exactly
    two digits, and 60 * minutes + seconds is the integer start of the
    snippet (also for a negative start). *)
Theorem timestamp_line_shape (s : snippet) :
  exists minutes seconds,
    timestamp_line int s
    = (str_int minutes ++ ":" ++ format_02d seconds ++ " - " ++ text_of s)%string /\
    0 <= seconds < 60 /\
    60 * minutes + seconds = int (start_of s) /\
    String.length (format_02d seconds) = 2%nat.
Proof.
  exists (int (start_of s) / 60), (int (start_of s) mod 60).
  pose proof (Z.mod_pos_bound (int (start_of s)) 60 ltac:(lia)) as Hb.
  repeat split; try lia.
  - pose proof (Z.div_mod (int (start_of s)) 60 ltac:(lia)). lia.
  - now apply format_02d_width.
Qed.

End RenderFacts.

(** ** The callers: fetching through the cache *)

Section JoinFacts.

(** A measure of strings that adds up over concatenation. *)
Variable f : string -> nat.
Hypothesis f_append : forall a b : string, f (a ++ b)%string = (f a + f b)%nat.







End JoinFacts.

Section FallbackKey.







End FallbackKey.

Section FetchFacts.
Context {Float Metadata Redis : Type}.
Import YouTubeTools.

Local Abbreviation snippet := (TranscriptCache.snippet (Float := Float)).
Local Abbreviation cached :=
  (TranscriptCache.cached (Float := Float) (Metadata := Metadata)).
Local Abbreviation facade :=
  (TranscriptCache.t (Float := Float) (Metadata := Metadata) (Redis := Redis)).

Variable redis_get : Redis -> string -> option cached * Redis.
Variable redis_set : Redis -> string -> cached -> Z -> Redis.


Lemma transcript_key_perm (video_id : string) (l l' : list string) :
  Permutation l l' ->
  TranscriptCache._make_transcript_key video_id (Some l) =
  TranscriptCache._make_transcript_key video_id (Some l').
Proof.
  intros HP. unfold TranscriptCache._make_transcript_key.
  destruct l as [|a r], l' as [|a' r']; try reflexivity.
  - apply Permutation_nil in HP. discriminate.
  - apply Permutation_sym, Permutation_nil in HP. discriminate.
  - now rewrite (sorted_Permutation HP).
Qed.

(** A read through the facade on the memory backend. *)
Lemma facade_get_memory (cache : facade) (m : MemoryCacheBackend.t cached)
    video_id languages now :
  TranscriptCache.enabled cache = true ->
  TranscriptCache._backend cache = Some (TranscriptCache.Memory m) ->
  let key := TranscriptCache._make_transcript_key video_id languages in
  TranscriptCache.get redis_get cache video_id languages now =
  (fst (MemoryCacheBackend.get m key now),
   TranscriptCache.with_backend cache
     (TranscriptCache.Memory (snd (MemoryCacheBackend.get m key now)))
     (TranscriptCache.CallGet key)).
Proof.
  intros Hon Hb key. unfold TranscriptCache.get. rewrite Hon, Hb.
  cbn [TranscriptCache.backend_get]. fold key.
  now destruct (MemoryCacheBackend.get m key now).
Qed.

Lemma get_max_size (m : MemoryCacheBackend.t cached) key now :
  MemoryCacheBackend.max_size (snd (MemoryCacheBackend.get m key now))
  = MemoryCacheBackend.max_size m.
Proof.
  unfold MemoryCacheBackend.get.
  destruct (OrderedDict.lookup (MemoryCacheBackend._cache m) key) as [[v e]|];
    [|reflexivity].
  destruct (now >? e); [reflexivity|].
  now destruct (OrderedDict.move_to_end (MemoryCacheBackend._cache m) key).
Qed.


(** A write through the facade on a memory backend that has room. *)
Lemma cache_set_memory (cache : facade) (m : MemoryCacheBackend.t cached)
    video_id transcript languages now :
  TranscriptCache.enabled cache = true ->
  TranscriptCache._backend cache = Some (TranscriptCache.Memory m) ->
  1 <= MemoryCacheBackend.max_size m ->
  let key := TranscriptCache._make_transcript_key video_id (Some languages) in
  exists m',
    MemoryCacheBackend.set m key
      (TranscriptCache.CachedTranscript (map TranscriptCache.to_dict transcript))
      (TranscriptCache.ttl_seconds cache) now = Ok m' /\
    cache_set redis_set cache video_id transcript languages now =
    (Returns tt,
     TranscriptCache.with_backend cache (TranscriptCache.Memory m')
       (TranscriptCache.CallSet key)).
Proof.
  intros Hon Hb Hms key. eexists. split; [now apply set_ok|].
  unfold cache_set, TranscriptCache.set. rewrite Hon, Hb.
  cbn [TranscriptCache.backend_set]. fold key.
  rewrite set_ok by assumption. reflexivity.
Qed.

(** A write through a starved facade raises and leaves it starved. *)
Lemma cache_set_starved (cache : facade) video_id transcript languages now :
  starved cache ->
  exists cache',
    cache_set redis_set cache video_id transcript languages now =
    (Raises (BuiltinError (KeyError "dictionary is empty")), cache') /\
    starved cache'.
Proof.
  intros [Hon [m [Hb [Hd Hms]]]].
  unfold cache_set, TranscriptCache.set. rewrite Hon, Hb.
  cbn [TranscriptCache.backend_set]. unfold MemoryCacheBackend.set.
  rewrite Hd. cbn [OrderedDict.contains OrderedDict.lookup].
  rewrite evict_raises by assumption. cbn [bind].
  eexists. split; [reflexivity|].
  unfold after_failed_set. rewrite Hb. split; [exact Hon|].
  exists (MemoryCacheBackend.clear m). repeat split. exact Hms.
Qed.

Lemma get_starved (cache : facade) video_id languages now :
  starved cache ->
  exists cache',
    TranscriptCache.get redis_get cache video_id languages now = (None, cache') /\
    starved cache'.
Proof.
  intros [Hon [m [Hb [Hd Hms]]]].
  rewrite (@facade_get_memory cache m video_id languages now Hon Hb). cbn zeta.
  rewrite get_miss by (rewrite Hd; reflexivity). cbn [fst snd].
  eexists. split; [reflexivity|]. split; [exact Hon|]. exists m. auto.
Qed.

(** X14.  Cache-aside on the direct path, for two requests in a row: on the
    memory backend with capacity at least one, a request that misses the
    cache and whose direct fetch succeeds returns the fetched transcript and
    stores it; when the next call on that cache (nothing else has used the
    cache in between) is a request for the same video with the same
    languages in any order, read no later than the TTL after the write, it
    is answered from the cache with the stored form of that transcript,
    whatever the caption service would answer then. *)
Theorem repeat_request_is_served_from_cache
    (api_fetch api_fetch' : string -> list string -> outcome (list snippet))
    (api_list api_list' : string -> outcome (TranscriptList (Float := Float)))
    (str str' : exception -> string) (repr repr' : list string -> string)
    (cache : facade) (m : MemoryCacheBackend.t cached)
    (video_id : string) (languages languages' : option (list string))
    (transcript : list snippet) (now_get now_set now_get' now_set' : Z) :
  TranscriptCache.enabled cache = true ->
  TranscriptCache._backend cache = Some (TranscriptCache.Memory m) ->
  1 <= MemoryCacheBackend.max_size m ->
  fst (TranscriptCache.get redis_get cache video_id (Some (normalize languages))
         now_get) = None ->
  api_fetch video_id (normalize languages) = Returns transcript ->
  Permutation (normalize languages) (normalize languages') ->
  now_get' <= now_set + TranscriptCache.ttl_seconds cache ->
  exists cache1,
    _fetch_transcript api_fetch api_list str repr redis_get redis_set
      cache video_id languages None now_get now_set
    = (Returns (Fetched transcript), cache1) /\
    fst (_fetch_transcript api_fetch' api_list' str' repr' redis_get redis_set
           cache1 video_id languages' None now_get' now_set')
    = Returns (FromCache (TranscriptCache.CachedTranscript
                            (map TranscriptCache.to_dict transcript))).
Proof.
  intros Hon Hb Hms Hmiss Hfetch Hperm Hfresh.
  set (key := TranscriptCache._make_transcript_key video_id (Some (normalize languages))).
  pose proof (@facade_get_memory cache m video_id (Some (normalize languages)) now_get
                Hon Hb) as Hget. cbn zeta in Hget. fold key in Hget.
  rewrite Hget in Hmiss. cbn [fst] in Hmiss.
  set (mA := snd (MemoryCacheBackend.get m key now_get)) in *.
  set (cacheA := TranscriptCache.with_backend cache (TranscriptCache.Memory mA)
                   (TranscriptCache.CallGet key)) in *.
  assert (1 <= MemoryCacheBackend.max_size mA) as HmsA
    by (unfold mA; now rewrite get_max_size).
  destruct (@cache_set_memory cacheA mA video_id transcript (normalize languages)
              now_set Hon eq_refl HmsA) as [mB [HsetB HcsB]].
  cbn zeta in HsetB, HcsB. fold key in HsetB, HcsB.
  set (cache1 := TranscriptCache.with_backend cacheA (TranscriptCache.Memory mB)
                   (TranscriptCache.CallSet key)) in *.
  exists cache1. split.
  - unfold _fetch_transcript. cbn [cache_key_langs].
    rewrite Hget, Hmiss, Hfetch, HcsB. reflexivity.
  - unfold _fetch_transcript. cbn [cache_key_langs].
    rewrite (@facade_get_memory cache1 mB video_id (Some (normalize languages'))
               now_get' Hon eq_refl).
    cbn zeta. rewrite <- (transcript_key_perm video_id Hperm). fold key.
    destruct (@memory_set_get Float Metadata mA key
                (TranscriptCache.CachedTranscript
                   (map TranscriptCache.to_dict transcript))
                (TranscriptCache.ttl_seconds cache) now_set now_get' HmsA Hfresh)
      as [mB' [HsetB' HgetB']].
    change (TranscriptCache.ttl_seconds cacheA) with (TranscriptCache.ttl_seconds cache)
      in HsetB.
    rewrite HsetB in HsetB'. injection HsetB' as <-.
    rewrite HgetB'. reflexivity.
Qed.

(** X15.  On a facade whose memory backend has capacity zero or less, no
    transcript request ever succeeds, even when the caption service answers:
    every write raises [KeyError]; without a translation target the request
    ends in the 404 "captions unavailable" error, with a target in an
    exception as well.  The facade stays in that state, so this holds for
    every later request too. *)
Theorem starved_cache_fails_every_request
    (api_fetch : string -> list string -> outcome (list snippet))
    (api_list : string -> outcome (TranscriptList (Float := Float)))
    (str : exception -> string) (repr : list string -> string)
    (cache : facade) (video_id : string) (languages : option (list string))
    (translate_to : option string) (now_get now_set : Z) :
  starved cache ->
  let r := _fetch_transcript api_fetch api_list str repr redis_get redis_set
             cache video_id languages translate_to now_get now_set in
  (forall x, fst r <> Returns x) /\
  (translate_to = None \/ translate_to = Some "" ->
   fst r = Raises (HTTPException 404 captions_unavailable)) /\
  starved (snd r).
Proof.
  intros Hst r. subst r. unfold _fetch_transcript.
  destruct (@get_starved cache video_id
              (Some (cache_key_langs (normalize languages) translate_to)) now_get Hst)
    as [c1 [Hget Hst1]].
  rewrite Hget.
  assert (forall c, starved c -> forall tr langs,
             exists c', cache_set redis_set c video_id tr langs now_set
                        = (Raises (BuiltinError (KeyError "dictionary is empty")), c')
                        /\ starved c') as Hset
    by (intros c Hc tr langs; now apply cache_set_starved).
  destruct translate_to as [[|ch target]|].
  - (* translate_to is the empty string *)
    destruct (api_fetch video_id (normalize languages)) as [tr|e].
    + destruct (Hset c1 Hst1 tr (cache_key_langs (normalize languages) (Some "")))
        as [c2 [-> Hst2]].
      destruct (_fetch_with_translation api_list str repr video_id None _) as [tr'|e'].
      * destruct (Hset c2 Hst2 tr' [("auto->>" ++ hd "" (normalize languages))%string])
          as [c3 [-> Hst3]].
        cbn [fst snd]. split; [intros x; discriminate|]. split; [intros _; reflexivity | assumption].
      * cbn [fst snd]. split; [intros x; discriminate|]. split; [intros _; reflexivity | assumption].
    + destruct (_fetch_with_translation api_list str repr video_id None _) as [tr'|e'].
      * destruct (Hset c1 Hst1 tr' [("auto->>" ++ hd "" (normalize languages))%string])
          as [c3 [-> Hst3]].
        cbn [fst snd]. split; [intros x; discriminate|]. split; [intros _; reflexivity | assumption].
      * cbn [fst snd]. split; [intros x; discriminate|]. split; [intros _; reflexivity | assumption].
  - (* a target language is given *)
    destruct (_fetch_with_translation api_list str repr video_id
                (Some (normalize languages)) (String ch target)) as [tr|e].
    + destruct (Hset c1 Hst1 tr
                  (cache_key_langs (normalize languages) (Some (String ch target))))
        as [c2 [-> Hst2]].
      cbn [fst snd]. split; [intros x; discriminate|]. split; [intros [H|H]; discriminate | assumption].
    + cbn [fst snd]. split; [intros x; discriminate|]. split; [intros [H|H]; discriminate | assumption].
  - destruct (api_fetch video_id (normalize languages)) as [tr|e].
    + destruct (Hset c1 Hst1 tr (cache_key_langs (normalize languages) None))
        as [c2 [-> Hst2]].
      destruct (_fetch_with_translation api_list str repr video_id None _) as [tr'|e'].
      * destruct (Hset c2 Hst2 tr' [("auto->>" ++ hd "" (normalize languages))%string])
          as [c3 [-> Hst3]].
        cbn [fst snd]. split; [intros x; discriminate|]. split; [intros _; reflexivity | assumption].
      * cbn [fst snd]. split; [intros x; discriminate|]. split; [intros _; reflexivity | assumption].
    + destruct (_fetch_with_translation api_list str repr video_id None _) as [tr'|e'].
      * destruct (Hset c1 Hst1 tr' [("auto->>" ++ hd "" (normalize languages))%string])
          as [c3 [-> Hst3]].
        cbn [fst snd]. split; [intros x; discriminate|]. split; [intros _; reflexivity | assumption].
      * cbn [fst snd]. split; [intros x; discriminate|]. split; [intros _; reflexivity | assumption].
Qed.


End FetchFacts.

(** ** The callers: video ids *)

Section VideoIdFacts.
Import YouTubeTools.

Variable urlparse : string -> outcome ParseResult.
Variable parse_qs : string -> list (string * list string).

Lemma split_slash_cons (c : ascii) (r : string) :
  split_slash (String c r) =
  if (c =? "/")%char then "" :: split_slash r
  else match split_slash r with
       | [] => [String c ""]
       | w :: ws => String c w :: ws
       end.
Proof.
  destruct c as [[] [] [] [] [] [] [] []]; reflexivity.
Qed.

Lemma split_slash_nonempty (s : string) : split_slash s <> [].
Proof.
  induction s as [|c r IH]; [discriminate|].
  rewrite split_slash_cons. destruct (c =? "/")%char; [discriminate|].
  destruct (split_slash r); discriminate.
Qed.

Lemma prefix_append (a : string) : forall p,
  String.prefix a p = true -> exists r, p = (a ++ r)%string.
Proof.
  induction a as [|c a IH]; intros p H.
  - now exists p.
  - destruct p as [|b p]; simpl in H; [discriminate|].
    destruct (ascii_dec c b) as [->|]; [|discriminate].
    destruct (IH p H) as [r ->]. now exists r.
Qed.

Lemma third_segment_embed (p : string) :
  String.prefix "/embed/" p = true ->
  exists s, third_segment p = Returns (Some s).
Proof.
  intros H. apply prefix_append in H. destruct H as [r ->].
  unfold third_segment. cbn [append]. rewrite !split_slash_cons. cbn [Ascii.eqb Bool.eqb].
  destruct (split_slash r) as [|w ws] eqn:E; [now apply split_slash_nonempty in E|].
  now exists w.
Qed.

Lemma third_segment_v (p : string) :
  String.prefix "/v/" p = true ->
  exists s, third_segment p = Returns (Some s).
Proof.
  intros H. apply prefix_append in H. destruct H as [r ->].
  unfold third_segment. cbn [append]. rewrite !split_slash_cons. cbn [Ascii.eqb Bool.eqb].
  destruct (split_slash r) as [|w ws] eqn:E; [now apply split_slash_nonempty in E|].
  now exists w.
Qed.

Lemma first_v_total (d : list (string * list string)) :
  (forall k vs, In (k, vs) d -> vs <> []) ->
  exists r, first_v d = Returns r.
Proof.
  induction d as [|[k vs] rest IH]; cbn; intros H; [eauto|].
  destruct (k =? "v")%string.
  - destruct vs as [|v vs']; [|eauto].
    exfalso. now apply (H k []); [left|].
  - apply IH. intros k' vs' Hin. apply (H k'). now right.
Qed.

(** X17.  [get_youtube_video_id]: an 11-character string over the id
    alphabet is returned as it is, without the URL parser being consulted.
    Otherwise, when the parser returns, the function returns too (an id or
    nothing), provided the query parser lists no key with an empty value
    list; a host other than youtu.be, www.youtube.com and youtube.com gives
    nothing; and an exception of the URL parser reaches the caller. *)
Theorem get_youtube_video_id_behaviour (url_or_id : string) :
  (String.length url_or_id = 11%nat ->
   all_allowed url_or_id = true ->
   get_youtube_video_id urlparse parse_qs url_or_id = Returns (Some url_or_id)) /\
  (forall parsed_url,
      urlparse url_or_id = Returns parsed_url ->
      (forall k vs, In (k, vs) (parse_qs (query parsed_url)) -> vs <> []) ->
      exists r, get_youtube_video_id urlparse parse_qs url_or_id = Returns r) /\
  (forall parsed_url,
      (String.length url_or_id =? 11)%nat && all_allowed url_or_id = false ->
      urlparse url_or_id = Returns parsed_url ->
      (forall h, hostname parsed_url = Some h ->
                 h <> "youtu.be" /\ h <> "www.youtube.com" /\ h <> "youtube.com") ->
      get_youtube_video_id urlparse parse_qs url_or_id = Returns None) /\
  (forall e,
      (String.length url_or_id =? 11)%nat && all_allowed url_or_id = false ->
      urlparse url_or_id = Raises e ->
      get_youtube_video_id urlparse parse_qs url_or_id = Raises e).
Proof.
  unfold get_youtube_video_id. repeat split.
  - intros Hlen Hall. rewrite Hlen, Hall. reflexivity.
  - intros p Hp Hqs.
    destruct ((String.length url_or_id =? 11)%nat && all_allowed url_or_id); [eauto|].
    rewrite Hp. destruct (hostname p) as [h|]; [|eauto].
    destruct (h =? "youtu.be")%string; [eauto|].
    destruct ((h =? "www.youtube.com")%string || (h =? "youtube.com")%string); [|eauto].
    destruct (path p =? "/watch")%string; [now apply first_v_total|].
    destruct (String.prefix "/embed/" (path p)) eqn:Ee.
    { destruct (third_segment_embed _ Ee) as [s ->]. eauto. }
    destruct (String.prefix "/v/" (path p)) eqn:Ev; [|eauto].
    destruct (third_segment_v _ Ev) as [s ->]. eauto.
  - intros p Hplain Hp Hhost. rewrite Hplain, Hp.
    destruct (hostname p) as [h|]; [|reflexivity].
    destruct (Hhost h eq_refl) as [H1 [H2 H3]].
    apply String.eqb_neq in H1, H2, H3. now rewrite H1, H2, H3.
  - intros e Hplain He. now rewrite Hplain, He.
Qed.

End VideoIdFacts.

(** ** More worked examples and instances *)

Section MoreExamples.

Example video_id_plain :
  YouTubeTools.get_youtube_video_id SampleTools.urlparse SampleTools.parse_qs
    "dQw4w9WgXcQ" = YouTubeTools.Returns (Some "dQw4w9WgXcQ").
Proof. reflexivity. Qed.

Example video_id_short_link :
  YouTubeTools.get_youtube_video_id SampleTools.urlparse SampleTools.parse_qs
    "https://youtu.be/dQw4w9WgXcQ" = YouTubeTools.Returns (Some "dQw4w9WgXcQ").
Proof. reflexivity. Qed.

Example video_id_embed :
  YouTubeTools.get_youtube_video_id SampleTools.urlparse SampleTools.parse_qs
    "https://www.youtube.com/embed/dQw4w9WgXcQ/x"
  = YouTubeTools.Returns (Some "dQw4w9WgXcQ").
Proof. reflexivity. Qed.

Example video_id_unknown :
  YouTubeTools.get_youtube_video_id SampleTools.urlparse SampleTools.parse_qs
    "not a video" = YouTubeTools.Returns None.
Proof. reflexivity. Qed.

Example translation_to_english :
  YouTubeTools._fetch_with_translation SampleTools.api_list_german SampleTools.str
    SampleTools.repr "abc12345678" (Some ["de"]) "en"
  = YouTubeTools.Returns Sample.hi.
Proof. reflexivity. Qed.

Example translation_not_offered :
  YouTubeTools._fetch_with_translation SampleTools.api_list_german SampleTools.str
    SampleTools.repr "abc12345678" None "ja"
  = YouTubeTools.Raises
      (YouTubeTools.HTTPException 400
         "Translation to 'ja' not available. Available: [en, fr]...").
Proof. reflexivity. Qed.

Example timestamp_of_125_seconds :
  YouTubeTools.timestamp_line (fun ms : Z => ms / 1000)
    (TranscriptCache.SnippetObject "hello" 125000 2000) = "2:05 - hello".
Proof. reflexivity. Qed.

Example captions_joined :
  YouTubeTools.captions_text
    [TranscriptCache.SnippetObject "a" 0 1; TranscriptCache.SnippetObject "b" 1 1]
  = "a b" /\
  YouTubeTools.captions_text (Float := Z) [] = "No captions found for video".
Proof. split; reflexivity. Qed.

End MoreExamples.

Lemma wf_three_writes :
  OrderedDict.wf (map History.binding SampleTools.three_writes).
Proof.
  unfold OrderedDict.wf. cbn.
  repeat constructor; cbn; intuition discriminate.
Defined.

Lemma bounded_two_entries : MemoryCacheBackend.bounded Sample.two_entries.
Proof.
  split; [exact wf_two_entries | unfold MemoryCacheBackend.size; cbn; lia].
Defined.

Lemma starved_zero_capacity : starved (Sample.new (Sample.memory 0)).
Proof.
  split; [reflexivity|].
  exists (MemoryCacheBackend.init 0). repeat split. cbn. lia.
Defined.

Lemma get_returns_latest_unexpired_write_witness :
  exists expiry,
    History.last_write None "a"
      [MemoryCacheBackend.OpSet "a" 1%nat 60 0;
       MemoryCacheBackend.OpSet "b" 7%nat 60 1;
       MemoryCacheBackend.OpSet "a" 2%nat 60 5;
       MemoryCacheBackend.OpGet "a" 6]
    = Some (2%nat, expiry) /\ 10 <= expiry.
Proof.
  eapply (@get_returns_latest_unexpired_write nat 2 _ _ "a" 10 2%nat);
    reflexivity.
Defined.

Lemma get_leaves_other_keys_readable_witness :
  "new" <> "old" /\
  fst (MemoryCacheBackend.get
         (snd (MemoryCacheBackend.get Sample.two_entries "old" 51)) "new" 60)
  = fst (MemoryCacheBackend.get Sample.two_entries "new" 60).
Proof.
  split; [discriminate|].
  apply (@get_leaves_other_keys_readable string Sample.two_entries "old" "new" 51 60).
  discriminate.
Defined.

Lemma set_evicts_only_when_full_witness :
  1 <= MemoryCacheBackend.max_size Sample.two_entries /\
  MemoryCacheBackend.set Sample.two_entries "k" "v" 60 10
  = Ok {| MemoryCacheBackend._cache :=
            MemoryCacheBackend._cache Sample.two_entries ++ [("k", ("v", 10 + 60))];
          MemoryCacheBackend.max_size := 3 |}.
Proof.
  split; [cbn; lia|].
  apply (proj1 (proj2 (@set_evicts_only_when_full string Sample.two_entries
                         "k" "v" 60 10 ltac:(cbn; lia) bounded_two_entries)));
    [reflexivity | unfold MemoryCacheBackend.size; cbn; lia].
Defined.

Lemma lru_keeps_most_recent_writes_witness :
  1 <= 2 /\
  MemoryCacheBackend.run (MemoryCacheBackend.init 2)
    (map History.store SampleTools.three_writes)
  = Ok {| MemoryCacheBackend._cache :=
            skipn (List.length SampleTools.three_writes - Z.to_nat 2)
              (map History.binding SampleTools.three_writes);
          MemoryCacheBackend.max_size := 2 |}.
Proof.
  split; [lia|].
  apply (@lru_keeps_most_recent_writes nat 2 SampleTools.three_writes);
    [lia | exact wf_three_writes].
Defined.

Lemma facade_store_then_fetch_witness :
  exists self',
    TranscriptCache.set UnreachableRedis.set (Sample.new (Sample.memory 1000))
      "abc12345678" Sample.hi (Some ["en"; "es"]) 0 = Ok self' /\
    fst (TranscriptCache.get UnreachableRedis.get self' "abc12345678"
           (Some ["es"; "en"]) 5)
    = Some (TranscriptCache.CachedTranscript (map TranscriptCache.to_dict Sample.hi)).
Proof.
  apply (@facade_store_then_fetch Z (list (string * string)) unit
           UnreachableRedis.get UnreachableRedis.set
           (Sample.new (Sample.memory 1000)) (MemoryCacheBackend.init 1000)
           "abc12345678" Sample.hi [("title", "a")] ["en"; "es"] ["es"; "en"] 0 5);
    [reflexivity | reflexivity | cbn; lia | apply perm_swap | cbn; lia].
Defined.

Lemma cleanup_expired_is_transparent_witness :
  TranscriptCache.cleanup_expired
    (snd (TranscriptCache.cleanup_expired Sample.with_two_cached (fun _ => 100)))
    (fun _ => 100)
  = (0, snd (TranscriptCache.cleanup_expired Sample.with_two_cached (fun _ => 100))).
Proof.
  apply (@cleanup_expired_is_transparent Z (list (string * string)) unit
           UnreachableRedis.get UnreachableRedis.size
           Sample.with_two_cached Sample.two_cached 100 eq_refl eq_refl wf_two_cached).
Defined.

Lemma repeat_request_is_served_from_cache_witness :
  exists cache1,
    YouTubeTools._fetch_transcript SampleTools.api_fetch_ok SampleTools.api_list_down
      SampleTools.str SampleTools.repr UnreachableRedis.get UnreachableRedis.set
      (Sample.new (Sample.memory 1000)) "abc12345678" (Some ["en"; "es"]) None 0 1
    = (YouTubeTools.Returns (YouTubeTools.Fetched Sample.hi), cache1) /\
    fst (YouTubeTools._fetch_transcript SampleTools.api_fetch_down
           SampleTools.api_list_down SampleTools.str SampleTools.repr
           UnreachableRedis.get UnreachableRedis.set
           cache1 "abc12345678" (Some ["es"; "en"]) None 2 3)
    = YouTubeTools.Returns
        (YouTubeTools.FromCache
           (TranscriptCache.CachedTranscript (map TranscriptCache.to_dict Sample.hi))).
Proof.
  apply (@repeat_request_is_served_from_cache Z (list (string * string)) unit
           UnreachableRedis.get UnreachableRedis.set
           SampleTools.api_fetch_ok SampleTools.api_fetch_down
           SampleTools.api_list_down SampleTools.api_list_down
           SampleTools.str SampleTools.str SampleTools.repr SampleTools.repr
           (Sample.new (Sample.memory 1000)) (MemoryCacheBackend.init 1000)
           "abc12345678" (Some ["en"; "es"]) (Some ["es"; "en"]) Sample.hi 0 1 2 3);
    [reflexivity | reflexivity | cbn; lia | reflexivity | reflexivity
    | apply perm_swap | cbn; lia].
Defined.

Lemma starved_cache_fails_every_request_witness :
  fst (YouTubeTools._fetch_transcript SampleTools.api_fetch_ok
         SampleTools.api_list_german SampleTools.str SampleTools.repr
         UnreachableRedis.get UnreachableRedis.set
         (Sample.new (Sample.memory 0)) "abc12345678" (Some ["en"]) None 0 1)
  = YouTubeTools.Raises
      (YouTubeTools.HTTPException 404 YouTubeTools.captions_unavailable).
Proof.
  apply (proj1 (proj2 (@starved_cache_fails_every_request Z (list (string * string)) unit
                         UnreachableRedis.get UnreachableRedis.set
                         SampleTools.api_fetch_ok SampleTools.api_list_german
                         SampleTools.str SampleTools.repr
                         (Sample.new (Sample.memory 0)) "abc12345678" (Some ["en"])
                         None 0 1 starved_zero_capacity))).
  now left.
Defined.

